(** * Watcher: the Nova cluster data model builder and the Keystone helper

    A shallow embedding of
      - [watcher/common/keystone_helper.py] (class [KeystoneHelper]) and
      - [watcher/decision_engine/model/collector/nova.py] (class [ModelBuilder])
    together with the properties their specification states about them.

    Python code that raises, mutates [self] and calls remote clients is
    written in a state-and-exception monad: a computation takes the current
    state and returns either a value or the exception raised, with the state
    it leaves behind (what was mutated before a raise stays mutated). *)

From stdpp Require Import gmap strings list fin_maps.

Open Scope Z_scope.
Open Scope string_scope.
Open Scope list_scope.

(** ** Exceptions and outcomes *)

Inductive exn :=
  | AttributeError (attr : string)     (* attribute lookup failed *)
  | TypeError (msg : string)
  | IndexError
  | KeyError (key : string)
  | ComputeNodeNotFound (name : option string)  (* watcher.common.exception *)
  | Invalid (message : string)                  (* watcher.common.exception *)
  | NotFound                           (* keystoneauth1.exceptions.http *)
  | ClientError (msg : string).        (* any other failure of a remote client *)

Global Instance exn_eq_dec : EqDecision exn.
Proof. solve_decision. Defined.

Inductive result (A : Type) :=
  | Ok (a : A)
  | Raise (e : exn).
Arguments Ok {A} a.
Arguments Raise {A} e.

(** ** The monad *)

Definition M (S A : Type) : Type := S → result A * S.

Global Instance M_ret {S} : MRet (M S) := λ A a s, (Ok a, s).

Global Instance M_bind {S} : MBind (M S) := λ A B f m s,
  match m s with
  | (Ok a, s') => f a s'
  | (Raise e, s') => (Raise e, s')
  end.

Definition raise {S A} (e : exn) : M S A := λ s, (Raise e, s).

Definition gets {S A} (f : S → A) : M S A := λ s, (Ok (f s), s).

Definition modify {S} (f : S → S) : M S unit := λ s, (Ok tt, f s).

(** A read of the state that may raise. *)
Definition reads {S A} (f : S → result A) : M S A := λ s, (f s, s).

(** [try: m except <handler>]: the handler receives the exception and decides
    whether it is one it catches (it re-raises the others). *)
Definition try_except {S A} (m : M S A) (handler : exn → M S A) : M S A := λ s,
  match m s with
  | (Raise e, s') => handler e s'
  | r => r
  end.

(** [for x in l: body x]. *)
Fixpoint for_each {S A} (l : list A) (body : A → M S unit) : M S unit :=
  match l with
  | [] => mret tt
  | x :: l' => body x ;; for_each l' body
  end.

(** [[body x for x in l]] *)
Fixpoint map_each {S A B} (l : list A) (body : A → M S B) : M S (list B) :=
  match l with
  | [] => mret []
  | x :: l' => y ← body x; ys ← map_each l' body; mret (y :: ys)
  end.

(** [for x in l: acc = body acc x], for a loop that updates a local
    variable. *)
Fixpoint fold_each {S A B} (l : list A) (acc : B) (body : B → A → M S B) : M S B :=
  match l with
  | [] => mret acc
  | x :: l' => acc' ← body acc x; fold_each l' acc' body
  end.

(** A remote call: its outcome is whatever the client answers; the call is
    recorded in the log kept in the state. *)
Definition remote {S C A} (log : C → S → S) (c : C) (answer : result A) : M S A :=
  λ s, (answer, log c s).

(** * Keystone helper *)

Module Keystone.

(** What the identity service returns for a role, user, project or domain. *)
Record Entity := { ent_id : string; ent_name : string }.

Global Instance Entity_eq_dec : EqDecision Entity.
Proof. solve_decision. Defined.

Inductive kind := Role | User | Project | Domain.

(** The manager of one kind of entity ([keystone.roles], [keystone.users],
    ...): [get] by id and [list(name=...)]. *)
Record Manager := {
  mgr_get : string → result Entity;
  mgr_list : string → result (list Entity) }.

Record Client := {
  roles : Manager;
  users : Manager;
  projects : Manager;
  domains : Manager;
  users_delete : Entity → result unit }.

(** The calls made to the identity service, oldest first. *)
Inductive call :=
  | CGet (k : kind) (name_or_id : string)
  | CList (k : kind) (name : string)
  | CDelete (user : Entity).

Definition log := list call.
Definition record_call (c : call) (l : log) : log := l ++ [c].

Section Helper.
Variable keystone : Client.

Definition manager (k : kind) : Manager :=
  match k with
  | Role => roles keystone
  | User => users keystone
  | Project => projects keystone
  | Domain => domains keystone
  end.

Definition label (k : kind) : string :=
  match k with
  | Role => "Role"
  | User => "User"
  | Project => "Project"
  | Domain => "Domain"
  end.

(** The body shared by [get_role], [get_user], [get_project] and
    [get_domain]: the four differ in the manager asked and in the word
    their messages start with. *)
Definition get_by_name_or_id (k : kind) (name_or_id : string) : M log Entity :=
  try_except
    (remote record_call (CGet k name_or_id) (mgr_get (manager k) name_or_id))
    (λ e, match e with
          | NotFound =>
              found ← remote record_call (CList k name_or_id)
                             (mgr_list (manager k) name_or_id);
              if bool_decide (length found = 0%nat) then
                raise (Invalid (label k +:+ " not Found: " +:+ name_or_id))
              else if bool_decide (1 < length found)%nat then
                raise (Invalid (label k +:+ " name seems ambiguous: " +:+ name_or_id))
              else match found with
                   | x :: _ => mret x
                   | [] => raise IndexError
                   end
          | _ => raise e
          end).

Definition get_role := get_by_name_or_id Role.
Definition get_user := get_by_name_or_id User.
Definition get_project := get_by_name_or_id Project.
Definition get_domain := get_by_name_or_id Domain.

(** The lookup of each kind. *)
Definition lookup (k : kind) : string → M log Entity :=
  match k with
  | Role => get_role
  | User => get_user
  | Project => get_project
  | Domain => get_domain
  end.

Definition delete_user (user : string) : M log unit :=
  try_except
    (u ← get_user user;
     remote record_call (CDelete u) (users_delete keystone u))
    (λ e, match e with
          | Invalid _ => mret tt
          | _ => raise e
          end).

End Helper.

End Keystone.

(** * Nova cluster data model builder *)

Module Nova.

(** ** Records returned by the compute service *)

(** [getattr(obj, name)] on a record whose attribute set is not fixed: the
    attribute may be missing altogether (the lookup then raises
    [AttributeError]) or present with some value. *)
Inductive attr (A : Type) :=
  | Missing
  | Present (a : A).
Arguments Missing {A}.
Arguments Present {A} a.

Record Aggregate := {
  agg_id : Z;
  agg_name : string;
  agg_hosts : list string }.

Record Service := {
  svc_host : string;
  svc_zone : string }.

(** One entry of [node.servers]. *)
Record ServerRef := {
  ref_uuid : string;
  ref_name : string }.

Record Hypervisor := {
  hv_id : Z;
  hv_service_host : string;                       (* node.service["host"] *)
  hv_service_disabled_reason : option string;     (* node.service["disabled_reason"] *)
  hypervisor_hostname : string;
  memory_mb : Z;
  free_disk_gb : Z;
  local_gb : Z;
  hv_vcpus : Z;
  hv_state : string;
  hv_status : string;
  hv_servers : option (list ServerRef) }.         (* getattr(node, "servers", None) *)

Record Flavor := {
  ram : Z;
  flavor_disk : Z;
  flavor_vcpus : Z }.

Record Server := {
  srv_id : string;
  human_id : string;
  flavor : Flavor;
  vm_state : attr string;                  (* "OS-EXT-STS:vm_state" *)
  srv_metadata : list (string * string);
  tenant_id : string;
  srv_locked : bool;
  srv_host : attr (option string) }.       (* "OS-EXT-SRV-ATTR:host" *)

(** ** Elements of the model *)

Record ComputeNode := {
  cn_id : Z;
  cn_uuid : string;
  cn_hostname : string;
  cn_memory : Z;
  cn_disk : Z;
  cn_disk_capacity : Z;
  cn_vcpus : Z;
  cn_state : string;
  cn_status : string;
  cn_disabled_reason : option string }.

Record Instance := {
  in_uuid : string;
  in_human_id : string;
  in_memory : Z;
  in_disk : Z;
  in_disk_capacity : Z;
  in_vcpus : Z;
  in_state : string;
  in_metadata : list (string * string);
  in_project_id : string;
  in_locked : bool }.

(** Modelled from the spec: [model_root.ModelRoot], the ClusterModel, is not
    among the files at hand. It owns the Host and Instance entities, keyed
    by their identifier, and the many-to-one relation Instance → Host,
    where mapping an instance again overwrites its host. *)
Record ModelRoot := {
  nodes : gmap string ComputeNode;
  instances : gmap string Instance;
  mapping : gmap string string }.

(** [ModelRoot()] *)
Definition empty_model : ModelRoot :=
  {| nodes := ∅; instances := ∅; mapping := ∅ |}.

Global Instance ModelRoot_inhabited : Inhabited ModelRoot := populate empty_model.

Definition add_node (n : ComputeNode) (m : ModelRoot) : ModelRoot :=
  {| nodes := <[cn_uuid n := n]> (nodes m);
     instances := instances m;
     mapping := mapping m |}.

Definition add_instance (i : Instance) (m : ModelRoot) : ModelRoot :=
  {| nodes := nodes m;
     instances := <[in_uuid i := i]> (instances m);
     mapping := mapping m |}.

Definition map_instance (i : Instance) (n : ComputeNode) (m : ModelRoot) : ModelRoot :=
  {| nodes := nodes m;
     instances := instances m;
     mapping := <[in_uuid i := cn_uuid n]> (mapping m) |}.

(** Modelled from the spec: [get_host_by_uuid(model, host_id) → Host |
    HostNotFound]; the code calls it [get_node_by_uuid] and expects
    [ComputeNodeNotFound]. [None] is the uuid of no host. *)
Definition get_node_by_uuid (uuid : option string) (m : ModelRoot) : result ComputeNode :=
  match uuid ≫= (λ u, nodes m !! u) with
  | Some n => Ok n
  | None => Raise (ComputeNodeNotFound uuid)
  end.

(** ** Scopes *)

(** A value inside a scope entry: [{"id": 3}], [{"id": "*"}],
    [{"name": "gpu-pool"}]. *)
Inductive pyval :=
  | PInt (z : Z)
  | PStr (s : string).

Global Instance pyval_eq_dec : EqDecision pyval.
Proof. solve_decision. Defined.

(** An entry of [host_aggregates] or [availability_zones]: a dict. Two dicts
    are equal when they hold the same keys with the same values. *)
Abbreviation item := (gmap string pyval).

(** One element of the compute scope, a dict such as
    [{"host_aggregates": [...]}], in the order [keys()] and [values()]
    enumerate it. The builder reads the value of the two inclusion roles
    only, whose entries the schema makes flat dicts. *)
Definition role : Type := list (string * list item).

(** The audit scope: a list (the schema types it as an array) of dicts such
    as [{"compute": [...]}]. *)
Definition audit_scope : Type := list (gmap string (list role)).

(** ** The world the builder runs in *)

(** The compute client, [nova_helper.NovaHelper], is not among the files at
    hand: what each of its calls answers is a parameter. *)
Record NovaHelper := {
  get_aggregate_list : result (list Aggregate);
  get_service_list : result (list Service);
  get_compute_node_list : result (list Hypervisor);
  get_compute_node_by_name : string → result (list Hypervisor);
  get_compute_node_by_id : Z → result Hypervisor;
  find_instance : string → result Server;
  get_instance_list : result (list Server) }.

Inductive call :=
  | GetAggregateList
  | GetServiceList
  | GetComputeNodeList
  | GetComputeNodeByName (node_name : string)
  | GetComputeNodeById (id : Z)
  | FindInstance (uuid : string)
  | GetInstanceList.

(** The interpreter running the code: [dict.keys()] is a list under
    Python 2 and a view, which cannot be indexed, under Python 3. *)
Inductive python := Py2 | Py3.

(** References to model objects. *)
Abbreviation addr := nat.

(** A [ModelBuilder] object ([self.model], [self.model_scope]), the model
    objects allocated so far and the remote calls made so far, oldest
    first. A reference always points into the heap; reading a dangling one
    gives the empty model, only to keep the operations total. *)
Record World := {
  self_model : option addr;
  self_model_scope : gmap string (list item);
  heap : gmap addr ModelRoot;
  calls : list call }.

Definition set_self_model (r : option addr) (w : World) : World :=
  {| self_model := r; self_model_scope := self_model_scope w;
     heap := heap w; calls := calls w |}.

Definition set_self_model_scope (sc : gmap string (list item)) (w : World) : World :=
  {| self_model := self_model w; self_model_scope := sc;
     heap := heap w; calls := calls w |}.

Definition set_heap (h : gmap addr ModelRoot) (w : World) : World :=
  {| self_model := self_model w; self_model_scope := self_model_scope w;
     heap := h; calls := calls w |}.

Definition record_call (c : call) (w : World) : World :=
  {| self_model := self_model w; self_model_scope := self_model_scope w;
     heap := heap w; calls := calls w ++ [c] |}.

(** [ModelBuilder(osc)] *)
Definition init : World :=
  {| self_model := None; self_model_scope := ∅; heap := ∅; calls := [] |}.

(** The model a reference points to. *)
Definition deref (w : World) (a : addr) : ModelRoot := heap w !!! a.

(** [model_root.ModelRoot()]: a new object, at an address not in use. *)
Definition new_model : M World addr := λ w,
  let a := fresh (dom (heap w)) in
  (Ok a, set_heap (<[a := empty_model]> (heap w)) w).

(** [self.model.<method>(...)] for a method that updates the model in
    place. *)
Definition on_model (method : string) (f : ModelRoot → ModelRoot) : M World unit :=
  r ← gets self_model;
  match r with
  | None => raise (AttributeError method)
  | Some a => modify (λ w, set_heap (<[a := f (deref w a)]> (heap w)) w)
  end.

(** [self.model.get_node_by_uuid(uuid)] *)
Definition model_get_node_by_uuid (uuid : option string) : M World ComputeNode :=
  r ← gets self_model;
  match r with
  | None => raise (AttributeError "get_node_by_uuid")
  | Some a => reads (λ w, get_node_by_uuid uuid (deref w a))
  end.

(** [getattr(obj, name)] with no default. *)
Definition getattr {A} (name : string) (x : attr A) : M World A :=
  match x with
  | Present a => mret a
  | Missing => raise (AttributeError name)
  end.

(** Iterating over a string gives its characters, each a string. *)
Fixpoint chars (s : string) : list string :=
  match s with
  | EmptyString => []
  | String c s' => String c EmptyString :: chars s'
  end.

(** ** The builder *)

Section Builder.
Variable py : python.
Variable nova_helper : NovaHelper.

(** The truth value of a model object in [self.model or ...], which the
    class [ModelRoot] decides and which is not among the files at hand. *)
Variable model_bool : ModelRoot → bool.

Definition nova {A} (c : call) (answer : result A) : M World A :=
  remote record_call c answer.

(** [d[key]] *)
Definition getitem {V} (d : gmap string V) (key : string) : M World V :=
  match d !! key with
  | Some v => mret v
  | None => raise (KeyError key)
  end.

(** [d.keys()[0]], [d.values()[0]] *)
Definition first {A} (view : string) (l : list A) : M World A :=
  match py with
  | Py3 => raise (TypeError ("'" +:+ view +:+ "' object is not subscriptable"))
  | Py2 => match l with
           | x :: _ => mret x
           | [] => raise IndexError
           end
  end.

(** The method of a list object called [name]: only [append] matters
    here. *)
Definition list_method (name : string) : M World (list item → item → list item) :=
  if bool_decide (name = "append") then mret (λ l v, l ++ [v])
  else raise (AttributeError name).

(** [self.<name>] for a data attribute of the builder: [__init__] sets
    [osc], [model], [model_scope], [nova] and [nova_helper]. *)
Definition self_attribute (name : string) : M World unit :=
  if bool_decide (name ∈ ["osc"; "model"; "model_scope"; "nova"; "nova_helper"])
  then mret tt
  else raise (AttributeError name).

(** [x in (ids or names)]: membership in a list, by equality. *)
Definition py_in (v : pyval) (l : list pyval) : bool := bool_decide (v ∈ l).

Definition _collect_aggregates (host_aggregates : list item) (_nodes : gset string)
  : M World (gset string) :=
  aggregate_list ← nova GetAggregateList (get_aggregate_list nova_helper);
  let aggregate_ids := omap (λ aggregate : item, aggregate !! "id") host_aggregates in
  let aggregate_names := omap (λ aggregate : item, aggregate !! "name") host_aggregates in
  let include_all_nodes :=
    existsb (λ field, py_in (PStr "*") field) [aggregate_ids; aggregate_names] in
  mret (foldl (λ _nodes aggregate,
                 if py_in (PInt (agg_id aggregate)) aggregate_ids
                    || py_in (PStr (agg_name aggregate)) aggregate_names
                    || include_all_nodes
                 then _nodes ∪ list_to_set (agg_hosts aggregate)
                 else _nodes)
              _nodes aggregate_list).

(** [_nodes.update(service.host)] iterates over its argument, here a
    string: it adds the characters of the host name. *)
Definition _collect_zones (availability_zones : list item) (_nodes : gset string)
  : M World (gset string) :=
  service_list ← nova GetServiceList (get_service_list nova_helper);
  zone_names ← map_each availability_zones (λ zone, getitem zone "name");
  let include_all_nodes := py_in (PStr "*") zone_names in
  mret (foldl (λ _nodes service,
                 if py_in (PStr (svc_zone service)) zone_names || include_all_nodes
                 then _nodes ∪ list_to_set (chars (svc_host service))
                 else _nodes)
              _nodes service_list).

Definition build_compute_node (node : Hypervisor) : ComputeNode :=
  {| cn_id := hv_id node;
     cn_uuid := hv_service_host node;
     cn_hostname := hypervisor_hostname node;
     cn_memory := memory_mb node;
     cn_disk := free_disk_gb node;
     cn_disk_capacity := local_gb node;
     cn_vcpus := hv_vcpus node;
     cn_state := hv_state node;
     cn_status := hv_status node;
     cn_disabled_reason := hv_service_disabled_reason node |}.

Definition add_compute_node (node : Hypervisor) : M World unit :=
  node_info ← nova (GetComputeNodeById (hv_id node))
                   (get_compute_node_by_id nova_helper (hv_id node));
  let compute_node := build_compute_node node_info in
  on_model "add_node" (add_node compute_node).

Definition _build_instance_node (instance : Server) : M World Instance :=
  let flavor := flavor instance in
  state ← getattr "OS-EXT-STS:vm_state" (vm_state instance);
  mret {| in_uuid := srv_id instance;
          in_human_id := human_id instance;
          in_memory := ram flavor;
          in_disk := flavor_disk flavor;
          in_disk_capacity := flavor_disk flavor;
          in_vcpus := flavor_vcpus flavor;
          in_state := state;
          in_metadata := srv_metadata instance;
          in_project_id := tenant_id instance;
          in_locked := srv_locked instance |}.

(** Body of the loop of [_add_virtual_servers]; both [continue] end it. *)
Definition add_virtual_server (inst : Server) : M World unit :=
  instance ← _build_instance_node inst;
  on_model "add_instance" (add_instance instance);;
  cnode_uuid ← getattr "OS-EXT-SRV-ATTR:host" (srv_host inst);
  match cnode_uuid with
  | None => mret tt
  | Some _ =>
      try_except
        (compute_node ← model_get_node_by_uuid cnode_uuid;
         on_model "map_instance" (map_instance instance compute_node))
        (λ e, match e with
              | ComputeNodeNotFound _ => mret tt
              | _ => raise e
              end)
  end.

Definition _add_virtual_servers : M World unit :=
  all_instances ← nova GetInstanceList (get_instance_list nova_helper);
  for_each all_instances add_virtual_server.

Definition _add_virtual_layer : M World unit := _add_virtual_servers.

(** Body of the loop of [add_instance_node]; [continue] in the handler
    ends it. *)
Definition add_listed_instance (uuid : string) : M World unit :=
  found ← try_except
            (inst ← nova (FindInstance uuid) (find_instance nova_helper uuid);
             mret (Some inst))
            (λ exc, mret None);
  match found with
  | None => mret tt
  | Some inst =>
      instance ← _build_instance_node inst;
      on_model "add_instance" (add_instance instance);;
      cnode_uuid ← getattr "OS-EXT-SRV-ATTR:host" (srv_host inst);
      compute_node ← model_get_node_by_uuid cnode_uuid;
      on_model "map_instance" (map_instance instance compute_node)
  end.

Definition add_instance_node (node : Hypervisor) : M World unit :=
  match hv_servers node with
  | None => mret tt
  | Some instances =>
      let instance_uuids := ref_uuid <$> instances in
      for_each instance_uuids add_listed_instance
  end.

(** Python's truth value of [d.get(key)]: a missing key and an empty list
    are both false. *)
Definition nonempty {A} (o : option (list A)) : option (list A) :=
  match o with
  | Some (x :: l) => Some (x :: l)
  | _ => None
  end.

(** First half of [_add_physical_layer]: the names of the nodes to fetch. *)
Definition compute_nodes_of_scope : M World (gset string) :=
  let compute_nodes : gset string := ∅ in
  host_aggregates ← gets (λ w, self_model_scope w !! "host_aggregates");
  availability_zones ← gets (λ w, self_model_scope w !! "availability_zones");
  compute_nodes ← match nonempty host_aggregates with
                  | Some host_aggregates =>
                      _collect_aggregates host_aggregates compute_nodes
                  | None => mret compute_nodes
                  end;
  compute_nodes ← match nonempty availability_zones with
                  | Some availability_zones =>
                      _collect_zones availability_zones compute_nodes
                  | None => mret compute_nodes
                  end;
  if bool_decide (compute_nodes = ∅) then
    all_nodes ← nova GetComputeNodeList (get_compute_node_list nova_helper);
    mret (list_to_set (hypervisor_hostname <$> all_nodes))
  else mret compute_nodes.

(** Body of the loop of [_add_physical_layer]. *)
Definition add_physical_node (node_name : string) : M World unit :=
  cnode ← nova (GetComputeNodeByName node_name)
               (get_compute_node_by_name nova_helper node_name);
  match cnode with
  | node :: _ => add_compute_node node;; add_instance_node node
  | [] => mret tt
  end.

(** A Python set is iterated in an order the language leaves open;
    [elements] is one enumeration of the set, without repetition. *)
Definition _add_physical_layer : M World unit :=
  compute_nodes ← compute_nodes_of_scope;
  for_each (elements compute_nodes) add_physical_node.

Definition role_keys : list string := ["host_aggregates"; "availability_zones"].

(** [self.model_scope.keys()] *)
Definition model_scope_keys : M World (gset string) :=
  gets (λ w, dom (self_model_scope w)).

Definition _merge_compute_scope (compute_scope : list role) : M World bool :=
  model_keys ← model_scope_keys;
  fold_each compute_scope false (λ update_flag role,
    role_key ← first "dict_keys" (role.*1);
    if negb (bool_decide (role_key ∈ role_keys)) then mret update_flag
    else
      role_values ← first "dict_values" (role.*2);
      if bool_decide (role_key ∈ model_keys) then
        fold_each role_values update_flag (λ update_flag value,
          stored ← gets self_model_scope ≫= (λ d, getitem d role_key);
          if negb (bool_decide (value ∈ stored)) then
            sppend ← list_method "sppend";
            modify (λ w, set_self_model_scope
                           (<[role_key := sppend stored value]> (self_model_scope w)) w);;
            mret true
          else mret update_flag)
      else
        self_attribute "self";;
        modify (λ w, set_self_model_scope
                       (<[role_key := role_values]> (self_model_scope w)) w);;
        mret true).

(** [for _scope in model_scope: if 'compute' in _scope: ...; break] *)
Fixpoint compute_scope_of (model_scope : audit_scope) : list role :=
  match model_scope with
  | [] => []
  | _scope :: rest =>
      match _scope !! "compute" with
      | Some compute_scope => compute_scope
      | None => compute_scope_of rest
      end
  end.

Definition _check_model_scope (model_scope : audit_scope) : M World bool :=
  let compute_scope := compute_scope_of model_scope in
  stored ← gets self_model_scope;
  if bool_decide (stored ≠ ∅) then
    match model_scope with
    | _ :: _ =>
        match compute_scope with
        | _ :: _ => _merge_compute_scope compute_scope
        | [] => mret false
        end
    | [] =>
        modify (set_self_model_scope ∅);;
        mret true
    end
  else mret false.

(** [_check_model_scope(model_scope)] where the argument may be [None], an
    absent scope: the loop [for _scope in model_scope], which comes before
    anything is read or written, cannot iterate over [None]. *)
Definition _check_model_scope_of (model_scope : option audit_scope) : M World bool :=
  match model_scope with
  | Some model_scope => _check_model_scope model_scope
  | None => raise (TypeError "'NoneType' object is not iterable")
  end.

(** [self.model or model_root.ModelRoot()] *)
Definition model_or_new (held : option addr) : M World addr :=
  match held with
  | Some a =>
      truth ← gets (λ w, model_bool (deref w a));
      if truth : bool then mret a else new_model
  | None => new_model
  end.

Definition execute (model_scope : audit_scope) : M World (option addr) :=
  updata_model_flag ← _check_model_scope model_scope;
  held ← gets self_model;
  (if bool_decide (held = None) || updata_model_flag then
     a ← model_or_new held;
     modify (set_self_model (Some a));;
     _add_physical_layer
   else mret tt);;
  gets self_model.

End Builder.

(** ** Vocabulary of the properties *)

(** The hosts of every aggregate, added to a set. *)
Definition every_aggregate_host (_nodes : gset string) (l : list Aggregate) : gset string :=
  foldl (λ _nodes aggregate, _nodes ∪ list_to_set (agg_hosts aggregate)) _nodes l.

(** The characters of the host name of every service, added to a set. *)
Definition every_service_host_chars (_nodes : gset string) (l : list Service) : gset string :=
  foldl (λ _nodes service, _nodes ∪ list_to_set (chars (svc_host service))) _nodes l.

(** An aggregate entry that is the wildcard, by id or by name. *)
Definition wildcard_aggregate (entry : item) : Prop :=
  entry !! "id" = Some (PStr "*") ∨ entry !! "name" = Some (PStr "*").

(** [w'] comes after [w] in the building of a layer: the builder holds the
    same model object and the same scope, the entities of every model are
    still there, and no object but the builder's model has changed. *)
Definition extends (w w' : World) : Prop :=
  self_model w' = self_model w ∧
  self_model_scope w' = self_model_scope w ∧
  (∀ a, dom (nodes (deref w a)) ⊆ dom (nodes (deref w' a)) ∧
        dom (instances (deref w a)) ⊆ dom (instances (deref w' a))) ∧
  (∀ a, self_model w ≠ Some a → heap w' !! a = heap w !! a).

(** [w'] differs from [w] in the log of remote calls at most. *)
Definition untouched (w w' : World) : Prop :=
  self_model w' = self_model w ∧
  self_model_scope w' = self_model_scope w ∧
  heap w' = heap w.

(** A computation that relates the world it leaves to the one it found. *)
Definition preserves {A} (R : relation World) (m : M World A) : Prop :=
  ∀ w r w', m w = (r, w') → R w w'.

(** A computation that only takes the world forward. *)
Abbreviation forward := (preserves extends).

(** The records of the instances a node lists that the compute service
    still finds. *)
Definition found_instances (nova_helper : NovaHelper) (node : Hypervisor) : list Server :=
  match hv_servers node with
  | None => []
  | Some instances =>
      omap (λ s, match find_instance nova_helper (ref_uuid s) with
                 | Ok inst => Some inst
                 | Raise _ => None
                 end) instances
  end.

(** The element [_build_instance_node] builds from a record that has its
    state. *)
Definition instance_node (instance : Server) : Instance :=
  {| in_uuid := srv_id instance;
     in_human_id := human_id instance;
     in_memory := ram (flavor instance);
     in_disk := flavor_disk (flavor instance);
     in_disk_capacity := flavor_disk (flavor instance);
     in_vcpus := flavor_vcpus (flavor instance);
     in_state := match vm_state instance with Present s => s | Missing => "" end;
     in_metadata := srv_metadata instance;
     in_project_id := tenant_id instance;
     in_locked := srv_locked instance |}.

(** An instance added to a model and mapped to a host. *)
Definition placed (n : ComputeNode) (m : ModelRoot) (inst : Server) : ModelRoot :=
  map_instance (instance_node inst) n (add_instance (instance_node inst) m).

(** A host added to a model with the instances found for it. *)
Definition host_layer (nova_helper : NovaHelper) (node info : Hypervisor) (m : ModelRoot)
  : ModelRoot :=
  foldl (placed (build_compute_node info)) (add_node (build_compute_node info) m)
        (found_instances nova_helper node).

(** The hosts named in [names], each with the node [node] and the record
    [info] the compute service has for it, added to a model in turn. *)
Definition layers (nova_helper : NovaHelper) (node info : string → Hypervisor)
    (names : list string) (m : ModelRoot) : ModelRoot :=
  foldl (λ m name, host_layer nova_helper (node name) (info name) m) m names.

(** The compute service knows the host called [name]: the search returns
    [node] first, the detail fetch of [node] returns [info], and the record
    of every instance found for [node] has its state and names the service
    host of [info] as its host. *)
Definition known_host (nova_helper : NovaHelper) (name : string) (node info : Hypervisor)
  : Prop :=
  (∃ others, get_compute_node_by_name nova_helper name = Ok (node :: others)) ∧
  get_compute_node_by_id nova_helper (hv_id node) = Ok info ∧
  ∀ inst, inst ∈ found_instances nova_helper node →
          vm_state inst ≠ Missing ∧
          srv_host inst = Present (Some (hv_service_host info)).

End Nova.

(** * Concrete situations

    Small identity and compute services on which the functions above are
    run. *)

Module Scenario.
Import Keystone Nova.

(** An identity service with two roles named "operator" and no user named
    "ghost". *)
Definition operator1 : Entity := {| ent_id := "r1"; ent_name := "operator" |}.
Definition operator2 : Entity := {| ent_id := "r2"; ent_name := "operator" |}.

Definition by_id (known : list Entity) : string → result Entity :=
  λ x, match filter (λ e, ent_id e = x) known with
       | e :: _ => Ok e
       | [] => Raise NotFound
       end.

Definition by_name (known : list Entity) : string → result (list Entity) :=
  λ x, Ok (filter (λ e, ent_name e = x) known).

Definition manager_of (known : list Entity) : Manager :=
  {| mgr_get := by_id known; mgr_list := by_name known |}.

Definition identity : Client :=
  {| roles := manager_of [operator1; operator2];
     users := manager_of [];
     projects := manager_of [];
     domains := manager_of [];
     users_delete := λ _, Ok tt |}.

(** A compute service with the aggregate "gpu-pool" of the hosts h1 and h2,
    both in the zone "nova". h1 runs the instance i1. h2 has gone: a search
    for it finds nothing. A third node, h3, alone in the aggregate "spare",
    lists an instance, i0, whose record names no host. *)
Definition hypervisor (id : Z) (host : string) (servers : list string) : Hypervisor :=
  {| hv_id := id;
     hv_service_host := host;
     hv_service_disabled_reason := None;
     hypervisor_hostname := host;
     memory_mb := 4096;
     free_disk_gb := 40;
     local_gb := 80;
     hv_vcpus := 8;
     hv_state := "up";
     hv_status := "enabled";
     hv_servers := Some ((λ u, {| ref_uuid := u; ref_name := u |}) <$> servers) |}.

Definition server (id : string) (host : option string) : Server :=
  {| srv_id := id;
     human_id := id;
     flavor := {| ram := 512; flavor_disk := 1; flavor_vcpus := 1 |};
     vm_state := Present "active";
     srv_metadata := [];
     tenant_id := "demo";
     srv_locked := false;
     srv_host := Present host |}.

Definition h1 : Hypervisor := hypervisor 1 "h1" ["i1"].
Definition h2 : Hypervisor := hypervisor 2 "h2" [].
Definition h3 : Hypervisor := hypervisor 3 "h3" ["i0"].

Definition cloud : NovaHelper :=
  {| get_aggregate_list :=
       Ok [ {| agg_id := 1; agg_name := "gpu-pool"; agg_hosts := ["h1"; "h2"] |};
            {| agg_id := 2; agg_name := "spare"; agg_hosts := ["h3"] |} ];
     get_service_list :=
       Ok [ {| svc_host := "h1"; svc_zone := "nova" |};
            {| svc_host := "h2"; svc_zone := "nova" |} ];
     get_compute_node_list := Ok [h1; h2];
     get_compute_node_by_name :=
       (λ name, if bool_decide (name = "h1") then Ok [h1]
                else if bool_decide (name = "h3") then Ok [h3]
                else Ok []);
     get_compute_node_by_id :=
       (λ id, if bool_decide (id = 1) then Ok h1
              else if bool_decide (id = 3) then Ok h3
              else Raise NotFound);
     find_instance :=
       (λ uuid, if bool_decide (uuid = "i1") then Ok (server "i1" (Some "h1"))
                else if bool_decide (uuid = "i0") then Ok (server "i0" None)
                else Raise NotFound);
     get_instance_list := Ok [server "i0" None; server "i1" (Some "h1")] |}.

(** Scope entries and scopes. *)
Definition aggregate_id (id : Z) : gmap string pyval := {[ "id" := PInt id ]}.
Definition aggregate_name (name : string) : gmap string pyval := {[ "name" := PStr name ]}.
Definition zone (name : string) : gmap string pyval := {[ "name" := PStr name ]}.

Definition compute (roles : list role) : audit_scope := [ {[ "compute" := roles ]} ].

(** A builder that has stored the scope [{"host_aggregates": [{"id": 1}]}]
    and holds no model. *)
Definition scoped : World :=
  set_self_model_scope {[ "host_aggregates" := [aggregate_id 1] ]} init.

(** The scope [[{"compute": [{"host_aggregates": [{"id": 2}]}]}]]: its
    aggregate id is not in the scope that [scoped] stores. *)
Definition other_aggregate : audit_scope :=
  compute [[("host_aggregates", [aggregate_id 2])]].

(** A builder in the middle of a build: it holds an empty model at address
    0 and has stored the scope [{"host_aggregates": [{"id": 2}]}]. *)
Definition building_spare : World :=
  {| self_model := Some 0%nat;
     self_model_scope := {[ "host_aggregates" := [aggregate_id 2] ]};
     heap := {[ 0%nat := empty_model ]};
     calls := [] |}.

(** A builder in the middle of a build: it holds an empty model at address
    0 and has stored the scope [{"host_aggregates": [{"name": "gpu-pool"}]}]. *)
Definition building_gpu_pool : World :=
  {| self_model := Some 0%nat;
     self_model_scope := {[ "host_aggregates" := [aggregate_name "gpu-pool"] ]};
     heap := {[ 0%nat := empty_model ]};
     calls := [] |}.

(** A builder holding a model, at address 0, of one host, h0, that the
    compute service does not know any more; the stored scope is as in
    [scoped]. *)
Definition h0_node : ComputeNode := build_compute_node (hypervisor 7 "h0" []).

Definition stale_model : ModelRoot := add_node h0_node empty_model.

Definition holding : World :=
  {| self_model := Some 0%nat;
     self_model_scope := {[ "host_aggregates" := [aggregate_id 1] ]};
     heap := {[ 0%nat := stale_model ]};
     calls := [] |}.

(** A builder holding an empty model at address 0, with no scope stored. *)
Definition building : World :=
  {| self_model := Some 0%nat;
     self_model_scope := ∅;
     heap := {[ 0%nat := empty_model ]};
     calls := [] |}.

(** Every model object is true, as a Python object is unless its class says
    otherwise. *)
Definition always_true : ModelRoot → bool := λ _, true.

End Scenario.

(** * The collector *)

Module Collector.
Import Nova.

(** The fields of a [NovaClusterDataModelCollector] that its two methods
    read and write. The handler is a [compute_scope.ComputeScope] object,
    made anew by every call of [get_audit_scope_handler]; it is known here by
    the scope it was made from only, so nothing can be said here about which
    object it is. *)
Record State := {
  _audit_scope_handler : option audit_scope;
  _data_model_scope : option audit_scope;
  _cluster_data_model : option addr }.

(** A scope as [==] and [!=] see it. Python compares two lists element by
    element, and two dicts by their keys and the values under them, in
    whatever order the keys are enumerated: a role, kept elsewhere in the
    order of its keys, counts here as the dict it is. *)
Definition as_dicts (scope : Nova.audit_scope)
  : list (gmap string (list (gmap string (list item)))) :=
  (λ _scope : gmap string (list role),
     (λ roles : list role,
        (λ r : role, list_to_map r : gmap string (list item)) <$> roles) <$> _scope)
  <$> scope.

(** [_data_model_scope is None or (len(_data_model_scope) > 0 and
    _data_model_scope != audit_scope)] *)
Definition scope_changed (stored : option audit_scope) (audit_scope : Nova.audit_scope)
  : bool :=
  match stored with
  | None => true
  | Some stored =>
      bool_decide (0 < length stored)%nat &&
      bool_decide (as_dicts stored ≠ as_dicts audit_scope)
  end.

Definition get_audit_scope_handler (audit_scope : Nova.audit_scope) (c : State)
  : Nova.audit_scope * State :=
  let handler := audit_scope in
  let c := {| _audit_scope_handler := Some handler;
              _data_model_scope := _data_model_scope c;
              _cluster_data_model := _cluster_data_model c |} in
  let c := if scope_changed (_data_model_scope c) audit_scope
           then {| _audit_scope_handler := _audit_scope_handler c;
                   _data_model_scope := Some audit_scope;
                   _cluster_data_model := None |}
           else c in
  (handler, c).

(** [ModelBuilder(self.osc)]: the builder that [execute] makes for this call
    takes the place of the one in the world; the model objects and the log of
    remote calls are those of the process. *)
Definition new_builder (w : World) : World :=
  {| self_model := None; self_model_scope := ∅; heap := heap w; calls := calls w |}.

Section Execute.
Variable py : python.
Variable nova_helper : NovaHelper.
Variable model_bool : ModelRoot → bool.

(** [builder.execute(None)] fails in [for _scope in model_scope]. *)
Definition execute (c : State) : M World (option addr) :=
  match _audit_scope_handler c with
  | None => mret None
  | Some _ =>
      modify new_builder;;
      match _data_model_scope c with
      | Some model_scope => Nova.execute py nova_helper model_bool model_scope
      | None => raise (TypeError "'NoneType' object is not iterable")
      end
  end.

End Execute.

End Collector.

(** * Keystone helper: creating users *)

Module Accounts.
Import Keystone.

(** The calls of the identity service that change it. *)
Record Writes := {
  users_create : string → string → Entity → Entity → result Entity;
  roles_grant : string → string → string → result unit }.

(** What [create_user] does to the identity service, oldest first: the
    lookups, the creation of the user and the grants. *)
Inductive event :=
  | Asked (c : Keystone.call)
  | Created (name password : string) (domain project : Entity)
  | Granted (role_id user_id project_id : string).

(** The argument of [create_user], a dict with these five keys. *)
Record NewUser := {
  nu_name : string;
  nu_password : string;
  nu_project : string;
  nu_domain : string;
  nu_roles : list string }.

Definition record_event (e : event) (l : list event) : list event := l ++ [e].

(** The events that change the identity service. *)
Definition is_write (e : event) : Prop :=
  match e with
  | Asked _ => False
  | _ => True
  end.

Global Instance is_write_dec e : Decision (is_write e).
Proof. destruct e; apply _. Defined.

Definition writes_of (l : list event) : list event := filter is_write l.

(** The events of one lookup: the calls it makes. *)
Definition asked {A} (m : M Keystone.log A) : list event := Asked <$> (m []).2.

(** A lookup, run where the writes are recorded as well: the calls it makes
    are added to the log. *)
Definition asking {A} (m : M Keystone.log A) : M (list event) A := λ l,
  let '(r, asked) := m [] in (r, l ++ (Asked <$> asked)).

Section Helper.
Variable keystone : Client.
Variable writes : Writes.

Definition create_user (user : NewUser) : M (list event) Entity :=
  project ← asking (get_project keystone (nu_project user));
  domain ← asking (get_domain keystone (nu_domain user));
  _user ← remote record_event
            (Created (nu_name user) (nu_password user) domain project)
            (users_create writes (nu_name user) (nu_password user) domain project);
  for_each (nu_roles user) (λ role,
    role ← asking (get_role keystone role);
    remote record_event
      (Granted (ent_id role) (ent_id _user) (ent_id project))
      (roles_grant writes (ent_id role) (ent_id _user) (ent_id project)));;
  mret _user.

End Helper.

End Accounts.

(** * Vocabulary of further properties *)

Module NovaSpec.
Import Nova.

(** The aggregate filter selects an aggregate: by its id, by its name, or by
    the wildcard. *)
Definition selects (filter : list item) (aggregate : Aggregate) : Prop :=
  ∃ entry, entry ∈ filter ∧
    (entry !! "id" = Some (PInt (agg_id aggregate)) ∨
     entry !! "name" = Some (PStr (agg_name aggregate)) ∨
     wildcard_aggregate entry).

(** The zone filter selects a service: by the name of its zone or by the
    wildcard. *)
Definition zone_selects (filter : list item) (service : Service) : Prop :=
  ∃ entry, entry ∈ filter ∧
    (entry !! "name" = Some (PStr (svc_zone service)) ∨
     entry !! "name" = Some (PStr "*")).

(** The names of the whole catalog of compute nodes. *)
Definition catalog (all_nodes : list Hypervisor) : gset string :=
  list_to_set (hypervisor_hostname <$> all_nodes).

(** A filter the code takes as not given: the key is missing or its list is
    empty. *)
Definition not_given (filter : option (list item)) : Prop :=
  filter = None ∨ filter = Some [].

(** Referential integrity of a model: a host is kept under its own uuid, and
    the relation maps instances of the model to hosts of the model. *)
Definition consistent (m : ModelRoot) : Prop :=
  (∀ u n, nodes m !! u = Some n → cn_uuid n = u) ∧
  (∀ i u, mapping m !! i = Some u → u ∈ dom (nodes m)) ∧
  (∀ i u, mapping m !! i = Some u → i ∈ dom (instances m)).

(** The models of the heap are all consistent. *)
Definition sound (w : World) : Prop := ∀ a, consistent (deref w a).

(** A world that is sound stays so. *)
Definition keeps_sound (w w' : World) : Prop := sound w → sound w'.

(** A role of a compute scope that adds nothing to the stored scope: its
    first key is not one of the two inclusion roles, or the stored scope has
    the key with every value of the role. *)
Definition covered (stored : gmap string (list item)) (r : role) : Prop :=
  match r with
  | [] => False
  | (role_key, role_values) :: _ =>
      role_key ∉ role_keys ∨
      match stored !! role_key with
      | Some held => Forall (λ value, value ∈ held) role_values
      | None => False
      end
  end.

Global Instance covered_dec stored r : Decision (covered stored r).
Proof.
  destruct r as [|[role_key role_values] r']; simpl; [apply _|].
  destruct (stored !! role_key); apply _.
Defined.

(** What merging a role that is not covered raises under Python 2. *)
Definition merge_error (stored : gmap string (list item)) (r : role) : exn :=
  match r with
  | [] => IndexError
  | (role_key, _) :: _ =>
      match stored !! role_key with
      | Some _ => AttributeError "sppend"
      | None => AttributeError "self"
      end
  end.

(** What [_add_virtual_servers] does with one record that has its state and
    its host attribute: the instance is added, and mapped when its host is
    in the model. *)
Definition virtual_server (m : ModelRoot) (inst : Server) : ModelRoot :=
  match srv_host inst with
  | Present (Some u) =>
      match nodes m !! u with
      | Some n => placed n m inst
      | None => add_instance (instance_node inst) m
      end
  | _ => add_instance (instance_node inst) m
  end.

End NovaSpec.

(** * Further concrete situations *)

Module Situations.
Import Keystone Nova Scenario.

(** A builder that has stored a scope naming an aggregate, 9, that the
    compute service does not have. *)
Definition scoped_nowhere : World :=
  set_self_model_scope {[ "host_aggregates" := [aggregate_id 9] ]} init.

(** The compute service of [cloud] with another catalog: the nodes h1 and
    h3, the second of which lists the instance that names no host. *)
Definition cloud_with_spare : NovaHelper :=
  {| get_aggregate_list := get_aggregate_list cloud;
     get_service_list := get_service_list cloud;
     get_compute_node_list := Ok [h1; h3];
     get_compute_node_by_name := get_compute_node_by_name cloud;
     get_compute_node_by_id := get_compute_node_by_id cloud;
     find_instance := find_instance cloud;
     get_instance_list := get_instance_list cloud |}.

(** The compute service of [cloud] where the search for h2 raises
    [NotFound] instead of answering with an empty list. *)
Definition cloud_search_raises : NovaHelper :=
  {| get_aggregate_list := get_aggregate_list cloud;
     get_service_list := get_service_list cloud;
     get_compute_node_list := get_compute_node_list cloud;
     get_compute_node_by_name :=
       (λ name, if bool_decide (name = "h2") then Raise NotFound
                else get_compute_node_by_name cloud name);
     get_compute_node_by_id := get_compute_node_by_id cloud;
     find_instance := find_instance cloud;
     get_instance_list := get_instance_list cloud |}.

(** The compute service of [cloud] where the search for h2 still finds it,
    while the detail fetch of its id, 2, raises [NotFound] as in [cloud]. *)
Definition cloud_detail_raises : NovaHelper :=
  {| get_aggregate_list := get_aggregate_list cloud;
     get_service_list := get_service_list cloud;
     get_compute_node_list := get_compute_node_list cloud;
     get_compute_node_by_name :=
       (λ name, if bool_decide (name = "h2") then Ok [h2]
                else get_compute_node_by_name cloud name);
     get_compute_node_by_id := get_compute_node_by_id cloud;
     find_instance := find_instance cloud;
     get_instance_list := get_instance_list cloud |}.

(** One scope written twice, the keys of its role in either order. *)
Definition aggregates_then_zones : audit_scope :=
  compute [[("host_aggregates", [aggregate_id 1]); ("availability_zones", [zone "nova"])]].

Definition zones_then_aggregates : audit_scope :=
  compute [[("availability_zones", [zone "nova"]); ("host_aggregates", [aggregate_id 1])]].

(** An identity service with the project "demo", the domain "default", the
    roles "admin" and "member" besides the two roles named "operator", and
    the user "carol" besides two users named "bob". *)
Definition demo : Entity := {| ent_id := "p1"; ent_name := "demo" |}.
Definition default_domain : Entity := {| ent_id := "d1"; ent_name := "default" |}.
Definition admin : Entity := {| ent_id := "r3"; ent_name := "admin" |}.
Definition member : Entity := {| ent_id := "r4"; ent_name := "member" |}.
Definition bob1 : Entity := {| ent_id := "u1"; ent_name := "bob" |}.
Definition bob2 : Entity := {| ent_id := "u2"; ent_name := "bob" |}.
Definition carol : Entity := {| ent_id := "u3"; ent_name := "carol" |}.

Definition directory : Client :=
  {| roles := manager_of [admin; member; operator1; operator2];
     users := manager_of [bob1; bob2; carol];
     projects := manager_of [demo];
     domains := manager_of [default_domain];
     users_delete := λ _, Ok tt |}.

(** Its writes all succeed; a user created gets the id "u-" followed by the
    name. *)
Definition registrar : Accounts.Writes :=
  {| Accounts.users_create := λ name _ _ _,
       Ok {| ent_id := "u-" +:+ name; ent_name := name |};
     Accounts.roles_grant := λ _ _ _, Ok tt |}.

(** The request to create "alice" in a project, with some roles. *)
Definition alice (project : string) (roles : list string) : Accounts.NewUser :=
  {| Accounts.nu_name := "alice";
     Accounts.nu_password := "secret";
     Accounts.nu_project := project;
     Accounts.nu_domain := "default";
     Accounts.nu_roles := roles |}.

Definition alice_created : Entity := {| ent_id := "u-alice"; ent_name := "alice" |}.

Definition role_named (x : string) : Entity :=
  if decide (x = "admin") then admin else member.

End Situations.

(** * Properties *)

(** ** The monad *)

Lemma bind_ok {S A B} (m : M S A) (f : A → M S B) s a s' :
  m s = (Ok a, s') → (m ≫= f) s = f a s'.
Proof. intros H. unfold mbind, M_bind. by rewrite H. Qed.

Lemma bind_raise {S A B} (m : M S A) (f : A → M S B) s e s' :
  m s = (Raise e, s') → (m ≫= f) s = (Raise e, s').
Proof. intros H. unfold mbind, M_bind. by rewrite H. Qed.

Lemma bind_ok_or_raise {S A B} (m : M S A) (f : A → M S B) s (r : result A) :
  m s = (r, s) →
  (m ≫= f) s = match r with Ok a => f a s | Raise e => (Raise e, s) end.
Proof. intros H. unfold mbind, M_bind. rewrite H. by destruct r. Qed.

(** ** Keystone helper *)

Section KeystoneProperties.
Import Keystone.
Variable keystone : Client.

Lemma lookup_unfold k x : lookup keystone k x = get_by_name_or_id keystone k x.
Proof. by destruct k. Qed.

(** The id lookup answered: its answer is returned, nothing is listed. *)
Lemma lookup_by_id k x l r :
  mgr_get (manager keystone k) x = Ok r →
  lookup keystone k x l = (Ok r, l ++ [CGet k x]).
Proof.
  intros H. rewrite lookup_unfold.
  unfold get_by_name_or_id, try_except, remote, record_call. by rewrite H.
Qed.

(** The id lookup failed otherwise than by [NotFound]: the failure is the
    caller's, nothing is listed. *)
Lemma lookup_other_failure k x l e :
  mgr_get (manager keystone k) x = Raise e → e ≠ NotFound →
  lookup keystone k x l = (Raise e, l ++ [CGet k x]).
Proof.
  intros H Hne. rewrite lookup_unfold.
  unfold get_by_name_or_id, try_except, remote, record_call. rewrite H.
  by destruct e.
Qed.

(** The id lookup raised [NotFound]: the names are listed, and the number
    of matches decides. *)
Lemma lookup_by_name k x l found :
  mgr_get (manager keystone k) x = Raise NotFound →
  mgr_list (manager keystone k) x = Ok found →
  lookup keystone k x l =
    (match found with
     | [] => Raise (Invalid (label k +:+ " not Found: " +:+ x))
     | [r] => Ok r
     | _ :: _ :: _ => Raise (Invalid (label k +:+ " name seems ambiguous: " +:+ x))
     end, l ++ [CGet k x; CList k x]).
Proof.
  intros Hget Hlist. rewrite lookup_unfold.
  unfold get_by_name_or_id, try_except, remote, record_call. rewrite Hget.
  unfold mbind, M_bind. rewrite Hlist.
  rewrite <- (assoc_L (++)). simpl.
  destruct found as [|r [|r' rest]]; reflexivity.
Qed.

End KeystoneProperties.

(** C9. Every name-or-id lookup (role, user, project, domain) asks by id
    first. An answer is returned as it is and a failure other than [NotFound]
    is passed on, in both cases without listing by name. On [NotFound] the
    lookup lists by name: no match raises the not-found error, several
    matches raise the ambiguity error and never return the first one, a
    single match is returned. Both errors are [exception.Invalid], told apart
    by their message. *)
Theorem lookup_name_or_id (keystone : Keystone.Client) (k : Keystone.kind)
    (x : string) (l : Keystone.log) :
  let lookup := Keystone.lookup keystone k x l in
  let get := Keystone.mgr_get (Keystone.manager keystone k) x in
  let list := Keystone.mgr_list (Keystone.manager keystone k) x in
  let asked := l ++ [Keystone.CGet k x] in
  let listed := l ++ [Keystone.CGet k x; Keystone.CList k x] in
  (∀ r, get = Ok r → lookup = (Ok r, asked)) ∧
  (∀ e, get = Raise e → e ≠ NotFound → lookup = (Raise e, asked)) ∧
  (get = Raise NotFound → ∀ found, list = Ok found →
     (found = [] →
      lookup = (Raise (Invalid (Keystone.label k +:+ " not Found: " +:+ x)), listed)) ∧
     (∀ r, found = [r] → lookup = (Ok r, listed)) ∧
     ((1 < length found)%nat →
      lookup = (Raise (Invalid (Keystone.label k +:+ " name seems ambiguous: " +:+ x)),
                listed))).
Proof.
  cbv zeta. split; [|split].
  - intros r H. by apply lookup_by_id.
  - intros e H Hne. by apply lookup_other_failure.
  - intros Hget found Hlist.
    rewrite (lookup_by_name keystone k x l found Hget Hlist).
    split; [|split].
    + by intros ->.
    + by intros r ->.
    + destruct found as [|r [|r' rest]]; simpl; [lia | lia | done].
Qed.

(** Two roles are both named "operator": looking the name up raises the
    ambiguity error after one id lookup and one listing. *)
Lemma lookup_name_or_id_witness :
  Keystone.get_role Scenario.identity "operator" [] =
    (Raise (Invalid "Role name seems ambiguous: operator"),
     [Keystone.CGet Keystone.Role "operator"; Keystone.CList Keystone.Role "operator"]).
Proof.
  pose proof (lookup_name_or_id Scenario.identity Keystone.Role "operator" []) as H.
  cbv zeta in H. destruct H as (_ & _ & H).
  destruct (H eq_refl [Scenario.operator1; Scenario.operator2] eq_refl) as (_ & _ & H3).
  apply H3. simpl. lia.
Defined.

(** C10. When the lookup of the user raises the not-found/invalid error,
    [delete_user] returns normally: the error is swallowed and the identity
    service is not asked to delete anything. *)
Theorem delete_user_missing (keystone : Keystone.Client) (user : string)
    (l l' : Keystone.log) (message : string) :
  Keystone.get_user keystone user l = (Raise (Invalid message), l') →
  Keystone.delete_user keystone user l = (Ok tt, l').
Proof.
  intros H. unfold Keystone.delete_user, try_except.
  by rewrite (bind_raise _ _ _ _ _ H).
Qed.

Lemma delete_user_missing_witness :
  Keystone.delete_user Scenario.identity "ghost" [] =
    (Ok tt, [Keystone.CGet Keystone.User "ghost"; Keystone.CList Keystone.User "ghost"]).
Proof.
  apply (delete_user_missing Scenario.identity "ghost" [] _ "User not Found: ghost").
  reflexivity.
Defined.

(** ** Nova model builder: scope resolution *)

Import Nova.

Section Resolution.
Variable nova_helper : NovaHelper.

Lemma foldl_same {A B} (f g : A → B → A) (l : list B) (a : A) :
  (∀ a x, x ∈ l → f a x = g a x) → foldl f a l = foldl g a l.
Proof.
  revert a. induction l as [|x l IH]; intros a H; simpl; [done|].
  rewrite H by left. apply IH. intros a' y Hy. apply H. by right.
Qed.

Lemma collect_aggregates_wildcard (filter : list item) _nodes w entry :
  entry ∈ filter → wildcard_aggregate entry →
  _collect_aggregates nova_helper filter _nodes w =
    (match get_aggregate_list nova_helper with
     | Ok l => Ok (every_aggregate_host _nodes l)
     | Raise e => Raise e
     end, record_call GetAggregateList w).
Proof.
  intros Hin Hwild. unfold _collect_aggregates, nova, remote, mbind, M_bind.
  destruct (get_aggregate_list nova_helper) as [l|e]; [|done].
  unfold mret, M_ret, every_aggregate_host. do 2 f_equal.
  apply foldl_same. intros acc a _.
  assert (existsb (λ field, py_in (PStr "*") field)
            [omap (λ aggregate : item, aggregate !! "id") filter;
             omap (λ aggregate : item, aggregate !! "name") filter] = true) as ->.
  { simpl. unfold py_in. destruct Hwild as [H|H].
    - rewrite (bool_decide_eq_true_2 (PStr "*" ∈ omap _ filter)); [done|].
      apply list_elem_of_omap. eauto.
    - rewrite orb_false_r. apply orb_true_iff. right.
      apply bool_decide_eq_true_2, list_elem_of_omap. eauto. }
  by rewrite orb_true_r.
Qed.

Lemma zone_names_ok (zones : list item) (w : World) :
  Forall (λ zone : item, is_Some (zone !! "name")) zones →
  map_each zones (λ zone, getitem zone "name") w =
    (Ok (omap (λ zone : item, zone !! "name") zones), w).
Proof.
  induction 1 as [|z zones [v Hv] _ IH]; simpl; [done|].
  unfold mbind, M_bind, getitem in *. rewrite Hv. simpl.
  by rewrite IH.
Qed.

Lemma collect_zones_wildcard (filter : list item) _nodes w entry :
  Forall (λ zone : item, is_Some (zone !! "name")) filter →
  entry ∈ filter → entry !! "name" = Some (PStr "*") →
  _collect_zones nova_helper filter _nodes w =
    (match get_service_list nova_helper with
     | Ok l => Ok (every_service_host_chars _nodes l)
     | Raise e => Raise e
     end, record_call GetServiceList w).
Proof.
  intros Hnames Hin Hwild. unfold _collect_zones, nova, remote, mbind, M_bind.
  destruct (get_service_list nova_helper) as [l|e]; [|done].
  fold (@mbind (M World) _). rewrite zone_names_ok by done.
  unfold mret, M_ret, every_service_host_chars. do 2 f_equal.
  apply foldl_same. intros acc s _.
  assert (py_in (PStr "*") (omap (λ zone : item, zone !! "name") filter) = true) as ->.
  { apply bool_decide_eq_true_2, list_elem_of_omap. eauto. }
  by rewrite orb_true_r.
Qed.

End Resolution.

(** C7. A filter list that holds the wildcard next to other entries resolves
    to what the list of the wildcard alone resolves to: for the aggregates
    (the wildcard given as id or as name) and for the zones (whose entries
    all carry a name). The two calls agree on the set collected, on the
    outcome and on the state they leave. *)
Theorem wildcard_absorbs_other_entries (nova_helper : NovaHelper)
    (aggregates zones : list item) (a z : item) (_nodes : gset string) (w : World) :
  a ∈ aggregates → wildcard_aggregate a →
  Forall (λ zone : item, is_Some (zone !! "name")) zones →
  z ∈ zones → z !! "name" = Some (PStr "*") →
  _collect_aggregates nova_helper aggregates _nodes w =
    _collect_aggregates nova_helper [{[ "id" := PStr "*" ]}] _nodes w ∧
  _collect_aggregates nova_helper aggregates _nodes w =
    _collect_aggregates nova_helper [{[ "name" := PStr "*" ]}] _nodes w ∧
  _collect_zones nova_helper zones _nodes w =
    _collect_zones nova_helper [{[ "name" := PStr "*" ]}] _nodes w.
Proof.
  intros Ha Hwa Hnames Hz Hwz. split; [|split].
  - rewrite (collect_aggregates_wildcard _ aggregates _ _ a Ha Hwa).
    symmetry. eapply collect_aggregates_wildcard; [by left|]. by left.
  - rewrite (collect_aggregates_wildcard _ aggregates _ _ a Ha Hwa).
    symmetry. eapply collect_aggregates_wildcard; [by left|]. by right.
  - rewrite (collect_zones_wildcard _ zones _ _ z Hnames Hz Hwz).
    symmetry. eapply collect_zones_wildcard; [|by left|done].
    repeat constructor. by eexists.
Qed.

Lemma wildcard_absorbs_other_entries_witness :
  let aggregates := [Scenario.aggregate_id 5; {[ "id" := PStr "*" ]};
                     Scenario.aggregate_name "gpu-pool"] in
  let zones := [Scenario.zone "nova"; Scenario.zone "*"] in
  _collect_aggregates Scenario.cloud aggregates ∅ init =
    _collect_aggregates Scenario.cloud [{[ "id" := PStr "*" ]}] ∅ init ∧
  _collect_aggregates Scenario.cloud aggregates ∅ init =
    _collect_aggregates Scenario.cloud [{[ "name" := PStr "*" ]}] ∅ init ∧
  _collect_zones Scenario.cloud zones ∅ init =
    _collect_zones Scenario.cloud [{[ "name" := PStr "*" ]}] ∅ init.
Proof.
  cbv zeta.
  apply (wildcard_absorbs_other_entries Scenario.cloud _ _
           {[ "id" := PStr "*" ]} (Scenario.zone "*")).
  - right; left.
  - by left.
  - repeat constructor; by eexists.
  - right; left.
  - reflexivity.
Defined.

(** A zone entry without a name is another matter: reading its name raises
    [KeyError], wildcard or not. *)
Example collect_zones_nameless_entry :
  _collect_zones Scenario.cloud [∅; Scenario.zone "*"] ∅ init =
    (Raise (KeyError "name"), record_call GetServiceList init).
Proof. reflexivity. Qed.

(** C5. With the zone filter [[{"name": "*"}]] and the services of the hosts
    "h1" and "h2", the zone collector returns the set of the characters of
    the host names, {"h", "1", "2"}, and not the set of the host names:
    [_nodes.update(service.host)] iterates over the string it is given. *)
Theorem zone_wildcard_collects_characters :
  ∃ resolved : gset string,
    _collect_zones Scenario.cloud [Scenario.zone "*"] ∅ init =
      (Ok resolved, record_call GetServiceList init) ∧
    get_service_list Scenario.cloud =
      Ok [ {| svc_host := "h1"; svc_zone := "nova" |};
           {| svc_host := "h2"; svc_zone := "nova" |} ] ∧
    resolved = {[ "h"; "1"; "2" ]} ∧
    resolved ≠ {[ "h1"; "h2" ]}.
Proof.
  exists {[ "h"; "1"; "2" ]}.
  split; [by vm_compute|]. split; [reflexivity|]. split; [reflexivity|].
  apply (bool_decide_eq_false_1 (({[ "h"; "1"; "2" ]} : gset string) = {[ "h1"; "h2" ]})).
  by vm_compute.
Qed.

(** ** Nova model builder: the stored scope *)

Section StoredScope.
Variable py : python.

Lemma fold_each_unchanged {S A B} (P : B → Prop) (l : list A) (body : B → A → M S B) :
  (∀ acc x s r s', P acc → body acc x s = (r, s') → s' = s ∧ ∀ b, r = Ok b → P b) →
  ∀ acc s r s', P acc → fold_each l acc body s = (r, s') →
                s' = s ∧ ∀ b, r = Ok b → P b.
Proof.
  intros Hbody. induction l as [|x l IH]; intros acc s r s' Hacc; simpl.
  - intros [= <- <-]. split; [done|]. by intros b [= <-].
  - unfold mbind, M_bind. destruct (body acc x s) as [[b1|e] s1] eqn:E.
    + destruct (Hbody _ _ _ _ _ Hacc E) as [-> Hb1].
      apply IH. by apply Hb1.
    + destruct (Hbody _ _ _ _ _ Hacc E) as [-> _].
      intros [= <- <-]. split; [done|]. by intros b [=].
Qed.

(** Merging never announces a change and never changes the builder: the
    two places that would do so fail on an attribute that does not exist,
    [sppend] of a list and [self] of the builder. *)
Lemma merge_compute_scope_inert (compute_scope : list role) (w : World) r w' :
  _merge_compute_scope py compute_scope w = (r, w') →
  w' = w ∧ ∀ b, r = Ok b → b = false.
Proof.
  unfold _merge_compute_scope, model_scope_keys, gets, mbind at 1, M_bind at 1.
  apply (fold_each_unchanged (λ b, b = false)); [|done].
  clear. intros acc rl s r s' ->.
  unfold first, list_method, self_attribute, getitem, gets, modify, raise,
    mbind, M_bind, mret, M_ret.
  destruct py; simpl.
  2:{ intros [= <- <-]. split; [done|]. by intros b [=]. }
  destruct (rl.*1) as [|role_key ks]; simpl.
  { intros [= <- <-]. split; [done|]. by intros b [=]. }
  destruct (negb (bool_decide (role_key ∈ role_keys))).
  { intros [= <- <-]. split; [done|]. by intros b [= <-]. }
  destruct (rl.*2) as [|role_values vs]; simpl.
  { intros [= <- <-]. split; [done|]. by intros b [=]. }
  destruct (bool_decide (role_key ∈ dom (self_model_scope w))).
  - apply (fold_each_unchanged (λ b, b = false)); [|done].
    clear. intros acc value s r s' ->.
    destruct (self_model_scope s !! role_key) as [stored|]; simpl.
    + destruct (negb (bool_decide (value ∈ stored))); simpl.
      * intros [= <- <-]. split; [done|]. by intros b [=].
      * intros [= <- <-]. split; [done|]. by intros b [= <-].
    + intros [= <- <-]. split; [done|]. by intros b [=].
  - intros [= <- <-]. split; [done|]. by intros b [=].
Qed.

Lemma check_model_scope_unfold (model_scope : audit_scope) (w : World) :
  _check_model_scope py model_scope w =
    if bool_decide (self_model_scope w ≠ ∅) then
      match model_scope with
      | _ :: _ =>
          match compute_scope_of model_scope with
          | _ :: _ => _merge_compute_scope py (compute_scope_of model_scope) w
          | [] => (Ok false, w)
          end
      | [] => (Ok true, set_self_model_scope ∅ w)
      end
    else (Ok false, w).
Proof.
  unfold _check_model_scope, gets, mbind at 1, M_bind at 1.
  destruct (bool_decide (self_model_scope w ≠ ∅)); [|done].
  destruct model_scope; [done|]. by destruct (compute_scope_of _).
Qed.

(** Applying a scope that is not empty never asks for a rebuild and leaves
    the builder as it was. *)
Lemma check_model_scope_nonempty (model_scope : audit_scope) (w : World) r w' :
  model_scope ≠ [] →
  _check_model_scope py model_scope w = (r, w') →
  w' = w ∧ ∀ b, r = Ok b → b = false.
Proof.
  intros Hne. rewrite check_model_scope_unfold.
  destruct (bool_decide (self_model_scope w ≠ ∅)).
  - destruct model_scope as [|sc rest]; [done|].
    destruct (compute_scope_of (sc :: rest)) as [|rl rls].
    + intros [= <- <-]. split; [done|]. by intros b [= <-].
    + apply merge_compute_scope_inert.
  - intros [= <- <-]. split; [done|]. by intros b [= <-].
Qed.

(** What the check answers depends on the stored scope only. *)
Lemma fold_each_frame {S A B} (l : list A) (body : B → A → M S B) (s1 s2 : S) :
  (∀ acc x r s', body acc x s1 = (r, s') → s' = s1 ∧ body acc x s2 = (r, s2)) →
  ∀ acc r s', fold_each l acc body s1 = (r, s') →
              s' = s1 ∧ fold_each l acc body s2 = (r, s2).
Proof.
  intros Hbody. induction l as [|x l IH]; intros acc r s'; simpl.
  - by intros [= <- <-].
  - unfold mbind, M_bind. destruct (body acc x s1) as [[b1|e] s] eqn:E.
    + destruct (Hbody _ _ _ _ E) as [-> ->]. apply IH.
    + destruct (Hbody _ _ _ _ E) as [-> ->]. by intros [= <- <-].
Qed.

Lemma merge_compute_scope_frame (compute_scope : list role) (w1 w2 : World) r w' :
  self_model_scope w1 = self_model_scope w2 →
  _merge_compute_scope py compute_scope w1 = (r, w') →
  _merge_compute_scope py compute_scope w2 = (r, w2).
Proof.
  intros Heq. unfold _merge_compute_scope, model_scope_keys, gets, mbind at 1 3, M_bind at 1 3.
  rewrite Heq. intros H. eapply fold_each_frame; [|exact H].
  clear H. intros acc rl r0 s'.
  unfold first, list_method, self_attribute, getitem, gets, modify, raise,
    mbind, M_bind, mret, M_ret.
  destruct py; simpl.
  2:{ by intros [= <- <-]. }
  destruct (rl.*1) as [|role_key ks]; simpl.
  { by intros [= <- <-]. }
  destruct (negb (bool_decide (role_key ∈ role_keys))).
  { by intros [= <- <-]. }
  destruct (rl.*2) as [|role_values vs]; simpl.
  { by intros [= <- <-]. }
  destruct (bool_decide (role_key ∈ dom (self_model_scope w2))).
  - apply fold_each_frame. clear acc r0 s'. intros acc value r0 s'.
    rewrite Heq.
    destruct (self_model_scope w2 !! role_key) as [stored|]; simpl.
    + destruct (negb (bool_decide (value ∈ stored))); simpl; by intros [= <- <-].
    + by intros [= <- <-].
  - by intros [= <- <-].
Qed.

Lemma check_model_scope_frame (model_scope : audit_scope) (w1 w2 : World) r w' :
  model_scope ≠ [] →
  self_model_scope w1 = self_model_scope w2 →
  _check_model_scope py model_scope w1 = (r, w') →
  _check_model_scope py model_scope w2 = (r, w2).
Proof.
  intros Hne Heq. rewrite !check_model_scope_unfold, Heq.
  destruct (bool_decide (self_model_scope w2 ≠ ∅)).
  - destruct model_scope as [|sc rest]; [done|].
    destruct (compute_scope_of (sc :: rest)) as [|rl rls].
    + by intros [= <- <-].
    + by apply merge_compute_scope_frame.
  - by intros [= <- <-].
Qed.

End StoredScope.

(** C8. When a scope is stored and the scope applied is empty, the empty
    list, the stored scope is reset to the empty dict and a rebuild is asked
    for. An absent scope, [None], is refused: the check raises [TypeError]
    and the stored scope stays. *)
Theorem empty_scope_clears_stored_scope (py : python) (w : World) :
  self_model_scope w ≠ ∅ →
  (_check_model_scope py [] w = (Ok true, set_self_model_scope ∅ w) ∧
   self_model_scope (set_self_model_scope ∅ w) = ∅) ∧
  _check_model_scope_of py (Some []) w = _check_model_scope py [] w ∧
  _check_model_scope_of py None w =
    (Raise (TypeError "'NoneType' object is not iterable"), w).
Proof.
  intros H. split; [split; [|done] | done].
  rewrite check_model_scope_unfold. by rewrite (bool_decide_eq_true_2 _ H).
Qed.

Lemma empty_scope_clears_stored_scope_witness :
  _check_model_scope Py2 [] Scenario.scoped = (Ok true, init).
Proof.
  apply (empty_scope_clears_stored_scope Py2 Scenario.scoped).
  apply (bool_decide_eq_true_1 _). by vm_compute.
Defined.

(** C8, as the specification has it, fails for the absent scope. The builder
    stores [{"host_aggregates": [{"id": 1}]}] and the check is given [None]:
    it raises, asks for no rebuild, and the scope is stored as before. *)
Lemma absent_scope_is_refused :
  self_model_scope Scenario.scoped = {[ "host_aggregates" := [Scenario.aggregate_id 1] ]} ∧
  self_model_scope Scenario.scoped ≠ ∅ ∧
  _check_model_scope_of Py2 None Scenario.scoped =
    (Raise (TypeError "'NoneType' object is not iterable"), Scenario.scoped) ∧
  _check_model_scope_of Py3 None Scenario.scoped =
    (Raise (TypeError "'NoneType' object is not iterable"), Scenario.scoped).
Proof.
  split; [done|]. split; [|done].
  apply (bool_decide_eq_true_1 _). by vm_compute.
Qed.

(** C2. The builder stores [{"host_aggregates": [{"id": 1}]}] and is given a
    scope with the aggregate id 2: instead of asking for a rebuild and
    storing the new scope, the check raises ([AttributeError] for [sppend]
    under Python 2, [TypeError] for [keys()[0]] under Python 3) and the
    stored scope stays. Given to a builder that has stored nothing, the same
    scope is answered with no rebuild and is not stored either. *)
Theorem new_scope_value_is_not_stored :
  _check_model_scope Py2 Scenario.other_aggregate Scenario.scoped =
    (Raise (AttributeError "sppend"), Scenario.scoped) ∧
  _check_model_scope Py3 Scenario.other_aggregate Scenario.scoped =
    (Raise (TypeError "'dict_keys' object is not subscriptable"), Scenario.scoped) ∧
  (∀ py, _check_model_scope py Scenario.other_aggregate init = (Ok false, init)).
Proof.
  split; [by vm_compute|]. split; [by vm_compute|]. by intros [].
Qed.

(** ** Nova model builder: what a computation leaves in place *)

(** Closure of [preserves R] under the constructs of the monad, for a
    relation [R] that is reflexive, transitive and blind to the log of remote
    calls. *)
Section Preserves.
Context (R : relation World) `{!PreOrder R}.
Hypothesis R_record_call : ∀ c w, R w (record_call c w).
Variable nova_helper : NovaHelper.

Lemma preserves_ret {A} (a : A) : preserves R (mret a).
Proof. by intros w r w' [= <- <-]. Qed.

Lemma preserves_raise {A} e : preserves R (raise (A:=A) e).
Proof. by intros w r w' [= <- <-]. Qed.

Lemma preserves_gets {A} (f : World → A) : preserves R (gets f).
Proof. by intros w r w' [= <- <-]. Qed.

Lemma preserves_reads {A} (f : World → result A) : preserves R (reads f).
Proof. by intros w r w' [= <- <-]. Qed.

Lemma preserves_bind {A B} (m : M World A) (f : A → M World B) :
  preserves R m → (∀ a, preserves R (f a)) → preserves R (m ≫= f).
Proof.
  intros Hm Hf w r w'. unfold mbind, M_bind.
  destruct (m w) as [[a|e] w1] eqn:E.
  - intros H. etrans; [by eapply Hm | by eapply Hf].
  - intros [= <- <-]. by eapply Hm.
Qed.

Lemma preserves_try_except {A} (m : M World A) (handler : exn → M World A) :
  preserves R m → (∀ e, preserves R (handler e)) → preserves R (try_except m handler).
Proof.
  intros Hm Hh w r w'. unfold try_except.
  destruct (m w) as [[a|e] w1] eqn:E.
  - intros [= <- <-]. by eapply Hm.
  - intros H. etrans; [by eapply Hm | by eapply Hh].
Qed.

Lemma preserves_for_each {A} (l : list A) (body : A → M World unit) :
  (∀ x, preserves R (body x)) → preserves R (for_each l body).
Proof.
  intros Hbody. induction l as [|x l IH]; simpl.
  - apply preserves_ret.
  - apply preserves_bind; [apply Hbody | by intros _].
Qed.

Lemma preserves_map_each {A B} (l : list A) (body : A → M World B) :
  (∀ x, preserves R (body x)) → preserves R (map_each l body).
Proof.
  intros Hbody. induction l as [|x l IH]; simpl.
  - apply preserves_ret.
  - apply preserves_bind; [apply Hbody|]. intros y.
    apply preserves_bind; [apply IH|]. intros ys. apply preserves_ret.
Qed.

Lemma preserves_nova {A} (c : call) (answer : result A) : preserves R (nova c answer).
Proof. intros w r w' [= <- <-]. apply R_record_call. Qed.

Lemma preserves_getitem {V} (d : gmap string V) key : preserves R (getitem d key).
Proof. unfold getitem. destruct (d !! key); [apply preserves_ret | apply preserves_raise]. Qed.

Lemma preserves_getattr {A} name (x : attr A) : preserves R (getattr name x).
Proof. destruct x; [apply preserves_raise | apply preserves_ret]. Qed.

Lemma preserves_model_get_node_by_uuid uuid : preserves R (model_get_node_by_uuid uuid).
Proof.
  unfold model_get_node_by_uuid. apply preserves_bind; [apply preserves_gets|].
  intros [a|]; [apply preserves_reads | apply preserves_raise].
Qed.

Lemma preserves_build_instance_node inst : preserves R (_build_instance_node inst).
Proof.
  unfold _build_instance_node. apply preserves_bind; [apply preserves_getattr|].
  intros st. apply preserves_ret.
Qed.

Lemma preserves_collect_aggregates filter _nodes :
  preserves R (_collect_aggregates nova_helper filter _nodes).
Proof.
  unfold _collect_aggregates. apply preserves_bind; [apply preserves_nova|].
  intros l. apply preserves_ret.
Qed.

Lemma preserves_collect_zones filter _nodes :
  preserves R (_collect_zones nova_helper filter _nodes).
Proof.
  unfold _collect_zones. apply preserves_bind; [apply preserves_nova|]. intros l.
  apply preserves_bind; [apply preserves_map_each; intros z; apply preserves_getitem|].
  intros names. apply preserves_ret.
Qed.

Lemma preserves_compute_nodes_of_scope : preserves R (compute_nodes_of_scope nova_helper).
Proof.
  unfold compute_nodes_of_scope.
  apply preserves_bind; [apply preserves_gets|]. intros ha.
  apply preserves_bind; [apply preserves_gets|]. intros az.
  apply preserves_bind.
  { destruct (nonempty ha); [apply preserves_collect_aggregates | apply preserves_ret]. }
  intros X1. apply preserves_bind.
  { destruct (nonempty az); [apply preserves_collect_zones | apply preserves_ret]. }
  intros X2. case_bool_decide; [|apply preserves_ret].
  apply preserves_bind; [apply preserves_nova|]. intros l. apply preserves_ret.
Qed.

End Preserves.

(** Resolving the scope touches nothing but the log. *)
Section Resolving.
Variable nova_helper : NovaHelper.

Global Instance untouched_preorder : PreOrder untouched.
Proof.
  split.
  - by intros w.
  - intros w1 w2 w3 (? & ? & ?) (? & ? & ?). repeat split; congruence.
Qed.

Lemma compute_nodes_of_scope_untouched w r w' :
  compute_nodes_of_scope nova_helper w = (r, w') → untouched w w'.
Proof. apply (preserves_compute_nodes_of_scope untouched). by intros c v. Qed.

End Resolving.

(** Building a layer only takes the world forward. *)
Section Forward.
Variable nova_helper : NovaHelper.

Global Instance extends_preorder : PreOrder extends.
Proof.
  split.
  - by intros w.
  - intros w1 w2 w3 (Hm1 & Hs1 & Hd1 & Ho1) (Hm2 & Hs2 & Hd2 & Ho2).
    split; [congruence|]. split; [congruence|]. split.
    + intros a. pose proof (Hd1 a) as [Hn1 Hi1]. pose proof (Hd2 a) as [Hn2 Hi2].
      split; etrans; eassumption.
    + intros a Ha. rewrite Ho2, Ho1; [done..|congruence].
Qed.

Lemma extends_record_call c w : extends w (record_call c w).
Proof. by repeat split. Qed.

Lemma deref_set_heap w a b m :
  deref (set_heap (<[a := m]> (heap w)) w) b = if decide (a = b) then m else deref w b.
Proof. unfold deref. simpl. apply lookup_total_insert. Qed.

(** An in-place update that loses no entity. *)
Lemma forward_on_model method (f : ModelRoot → ModelRoot) :
  (∀ m, dom (nodes m) ⊆ dom (nodes (f m)) ∧ dom (instances m) ⊆ dom (instances (f m))) →
  forward (on_model method f).
Proof.
  intros Hf w r w'. unfold on_model, gets, mbind, M_bind.
  destruct (self_model w) as [a|] eqn:E.
  - intros [= <- <-]. split; [done|]. split; [done|]. split.
    + intros b. rewrite deref_set_heap. case_decide as Hab; [subst b; apply Hf | done].
    + intros b Hb. simpl. apply lookup_insert_ne. congruence.
  - by intros [= <- <-].
Qed.

Lemma forward_add_node n : forward (on_model "add_node" (add_node n)).
Proof.
  apply forward_on_model. intros m. split; [|done]. apply dom_insert_subseteq.
Qed.

Lemma forward_add_instance i : forward (on_model "add_instance" (add_instance i)).
Proof.
  apply forward_on_model. intros m. split; [done|]. apply dom_insert_subseteq.
Qed.

Lemma forward_map_instance i n : forward (on_model "map_instance" (map_instance i n)).
Proof. apply forward_on_model. by intros m. Qed.

Local Ltac closure lem := apply lem; try apply _; try apply extends_record_call.

Lemma forward_add_compute_node node : forward (add_compute_node nova_helper node).
Proof.
  unfold add_compute_node. closure @preserves_bind.
  - closure @preserves_nova.
  - intros info. apply forward_add_node.
Qed.

Lemma forward_add_instance_node node : forward (add_instance_node nova_helper node).
Proof.
  unfold add_instance_node.
  destruct (hv_servers node) as [refs|]; [|closure @preserves_ret].
  closure @preserves_for_each. intros uuid.
  unfold add_listed_instance. closure @preserves_bind.
  - closure @preserves_try_except.
    + closure @preserves_bind; [closure @preserves_nova|].
      intros inst. closure @preserves_ret.
    + intros e. closure @preserves_ret.
  - intros [inst|]; [|closure @preserves_ret].
    closure @preserves_bind; [closure @preserves_build_instance_node|]. intros i.
    closure @preserves_bind; [apply forward_add_instance|]. intros _.
    closure @preserves_bind; [closure @preserves_getattr|]. intros u.
    closure @preserves_bind; [closure @preserves_model_get_node_by_uuid|]. intros n.
    apply forward_map_instance.
Qed.

Lemma forward_add_physical_node name : forward (add_physical_node nova_helper name).
Proof.
  unfold add_physical_node. closure @preserves_bind; [closure @preserves_nova|].
  intros [|node others]; [closure @preserves_ret|].
  closure @preserves_bind; [apply forward_add_compute_node|]. intros _.
  apply forward_add_instance_node.
Qed.

Lemma forward_add_physical_layer : forward (_add_physical_layer nova_helper).
Proof.
  unfold _add_physical_layer. closure @preserves_bind.
  - closure @preserves_compute_nodes_of_scope.
  - intros X. closure @preserves_for_each.
    intros name. apply forward_add_physical_node.
Qed.

End Forward.

(** ** Nova model builder: [execute] *)

Section Execute.
Variable py : python.
Variable nova_helper : NovaHelper.
Variable model_bool : ModelRoot → bool.

Lemma execute_unfold (model_scope : audit_scope) (w : World) :
  execute py nova_helper model_bool model_scope w =
    match _check_model_scope py model_scope w with
    | (Raise e, w0) => (Raise e, w0)
    | (Ok updata_model_flag, w0) =>
        if bool_decide (self_model w0 = None) || updata_model_flag then
          match model_or_new model_bool (self_model w0) w0 with
          | (Raise e, w1) => (Raise e, w1)
          | (Ok a, w1) =>
              match _add_physical_layer nova_helper (set_self_model (Some a) w1) with
              | (Raise e, w2) => (Raise e, w2)
              | (Ok _, w2) => (Ok (self_model w2), w2)
              end
          end
        else (Ok (self_model w0), w0)
    end.
Proof.
  unfold execute, mbind, M_bind, gets, modify.
  destruct (_check_model_scope py model_scope w) as [[flag|e] w0]; [|done].
  destruct (bool_decide (self_model w0 = None) || flag); [|done].
  destruct (model_or_new model_bool (self_model w0) w0) as [[a|e] w1]; [|done].
  by destruct (_add_physical_layer _ _) as [[[]|e] w2].
Qed.

(** [self.model or ModelRoot()] is the held object when there is one and it
    is true, and a new, empty object otherwise. *)
Lemma model_or_new_spec (held : option addr) (w : World) :
  ∃ a w1, model_or_new model_bool held w = (Ok a, w1) ∧
    ((held = Some a ∧ model_bool (deref w a) = true ∧ w1 = w) ∨
     ((held = None ∨ (∃ b, held = Some b ∧ model_bool (deref w b) = false)) ∧
      (a ∉ dom (heap w)) ∧
      w1 = set_heap (<[a := empty_model]> (heap w)) w)).
Proof.
  unfold model_or_new, new_model, gets, mbind, M_bind.
  destruct held as [b|].
  - destruct (model_bool (deref w b)) eqn:E.
    + exists b, w. split; [done|]. by left.
    + eexists _, _. split; [done|]. right.
      split; [right; eauto|]. split; [apply is_fresh|done].
  - eexists _, _. split; [done|]. right.
    split; [by left|]. split; [apply is_fresh|done].
Qed.

End Execute.

(** C3. When [execute] has returned for a scope that is not empty, calling it
    again with the same scope is a reuse: the check answers that nothing
    changed, and the call returns the same model object and leaves the whole
    world as it was — the stored scope, every model object and the log of
    remote calls, to which nothing is added. *)
Theorem same_scope_twice_reuses (py : python) (nova_helper : NovaHelper)
    (model_bool : ModelRoot → bool) (model_scope : audit_scope)
    (w w1 : World) (returned : option addr) :
  model_scope ≠ [] →
  execute py nova_helper model_bool model_scope w = (Ok returned, w1) →
  _check_model_scope py model_scope w1 = (Ok false, w1) ∧
  execute py nova_helper model_bool model_scope w1 = (Ok returned, w1) ∧
  is_Some returned.
Proof.
  intros Hne Hfirst.
  assert (_check_model_scope py model_scope w = (Ok false, w) ∧
          self_model w1 = returned ∧ is_Some returned ∧
          self_model_scope w1 = self_model_scope w) as (Hcheck & Hm & Hsome & Hsc).
  { rewrite execute_unfold in Hfirst.
    destruct (_check_model_scope py model_scope w) as [[flag|e] w0] eqn:Hc; [|done].
    destruct (check_model_scope_nonempty _ _ _ _ _ Hne Hc) as [-> Hflag].
    rewrite (Hflag _ eq_refl) in *. split; [done|].
    rewrite orb_false_r in Hfirst. case_bool_decide as Hheld.
    - destruct (model_or_new_spec model_bool (self_model w) w) as (a & wa & Hnew & Hcases).
      rewrite Hnew in Hfirst.
      destruct (_add_physical_layer _ _) as [[[]|e] w2] eqn:Hlayer; [|done].
      injection Hfirst as <- <-.
      destruct (forward_add_physical_layer _ _ _ _ Hlayer) as (Hm & Hsc & _ & _).
      simpl in Hm, Hsc. rewrite Hm. split; [done|]. split; [by eexists|].
      rewrite Hsc. destruct Hcases as [(_ & _ & ->)|(_ & _ & ->)]; done.
    - injection Hfirst as <- <-. split; [done|]. split; [|done].
      destruct (self_model w); [by eexists | done]. }
  assert (_check_model_scope py model_scope w1 = (Ok false, w1)) as Hcheck1.
  { eapply check_model_scope_frame; [done| |exact Hcheck]. done. }
  split; [done|]. split; [|done].
  rewrite execute_unfold, Hcheck1, Hm. destruct Hsome as [a ->].
  rewrite orb_false_r. by rewrite bool_decide_eq_false_2.
Qed.

Lemma same_scope_twice_reuses_witness :
  ∃ w1,
    execute Py2 Scenario.cloud Scenario.always_true Scenario.other_aggregate init =
      (Ok (Some 0%nat), w1) ∧
    execute Py2 Scenario.cloud Scenario.always_true Scenario.other_aggregate w1 =
      (Ok (Some 0%nat), w1).
Proof.
  eexists. split; [by vm_compute|].
  eapply (same_scope_twice_reuses Py2 Scenario.cloud Scenario.always_true
            Scenario.other_aggregate init); [done | by vm_compute].
Defined.

(** C1, as the code has it. When a rebuild is decided (the check asks for it
    or the builder holds no model) and [execute] returns: if the builder
    holds a model object that is true, that object is the one returned and
    every host and every instance it had is still in it; a new object, at an
    address not in use before, is returned only when the builder holds no
    model or holds one that is false. In every case no object but the one
    returned has changed or appeared. *)
Theorem rebuild_extends_held_model (py : python) (nova_helper : NovaHelper)
    (model_bool : ModelRoot → bool) (model_scope : audit_scope)
    (w w0 w' : World) (updata_model_flag : bool) (returned : option addr) :
  _check_model_scope py model_scope w = (Ok updata_model_flag, w0) →
  updata_model_flag = true ∨ self_model w = None →
  execute py nova_helper model_bool model_scope w = (Ok returned, w') →
  ∃ b, returned = Some b ∧
       (∀ c, c ≠ b → heap w' !! c = heap w !! c) ∧
       match self_model w with
       | Some a =>
           if model_bool (deref w a) then
             b = a ∧
             dom (nodes (deref w a)) ⊆ dom (nodes (deref w' a)) ∧
             dom (instances (deref w a)) ⊆ dom (instances (deref w' a))
           else b ∉ dom (heap w)
       | None => b ∉ dom (heap w)
       end.
Proof.
  intros Hcheck Hrebuild Hexec.
  assert (self_model w0 = self_model w ∧ heap w0 = heap w) as [Hm0 Hh0].
  { rewrite check_model_scope_unfold in Hcheck.
    destruct (bool_decide (self_model_scope w ≠ ∅)).
    - destruct model_scope as [|sc rest]; [by injection Hcheck as <- <-|].
      destruct (compute_scope_of (sc :: rest)).
      + by injection Hcheck as <- <-.
      + by destruct (merge_compute_scope_inert _ _ _ _ _ Hcheck) as [-> _].
    - by injection Hcheck as <- <-. }
  assert (∀ a, deref w0 a = deref w a) as Hd0.
  { intros a. unfold deref. by rewrite Hh0. }
  rewrite execute_unfold, Hcheck in Hexec.
  assert ((bool_decide (self_model w0 = None) || updata_model_flag) = true) as Hgo.
  { destruct Hrebuild as [->|Hnone]; [apply orb_true_r|].
    by rewrite Hm0, (bool_decide_eq_true_2 _ Hnone). }
  rewrite Hgo in Hexec.
  destruct (model_or_new_spec model_bool (self_model w0) w0) as (b & wb & Hnew & Hcases).
  rewrite Hnew in Hexec.
  destruct (_add_physical_layer _ _) as [[[]|e] w2] eqn:Hlayer; [|done].
  injection Hexec as <- <-.
  destruct (forward_add_physical_layer _ _ _ _ Hlayer) as (Hm & _ & Hgrow & Hothers).
  simpl in Hm, Hothers. exists b. split; [done|].
  rewrite Hm0 in Hcases.
  destruct Hcases as [(Hheld & Htrue & ->)|(Hwhy & Hfresh & ->)].
  - split.
    { intros c Hc. rewrite Hothers by congruence. by rewrite Hh0. }
    rewrite Hheld, <- (Hd0 b), Htrue. split; [done|].
    exact (Hgrow b).
  - split.
    { intros c Hc. rewrite Hothers by congruence. simpl.
      rewrite lookup_insert_ne by done. by rewrite Hh0. }
    rewrite Hh0 in Hfresh.
    destruct Hwhy as [->|(a & -> & Hfalse)]; [done|].
    by rewrite <- (Hd0 a), Hfalse.
Qed.

Lemma rebuild_extends_held_model_witness :
  let rebuilt := execute Py2 Scenario.cloud Scenario.always_true [] Scenario.holding in
  rebuilt.1 = Ok (Some 0%nat) ∧
  dom (nodes (deref Scenario.holding 0%nat)) ⊆ dom (nodes (deref rebuilt.2 0%nat)).
Proof.
  intros rebuilt. split; [by vm_compute|].
  destruct (rebuild_extends_held_model Py2 Scenario.cloud Scenario.always_true []
              Scenario.holding (set_self_model_scope ∅ Scenario.holding) rebuilt.2 true
              (Some 0%nat)) as (b & Hb & _ & Hkept).
  - by vm_compute.
  - by left.
  - by vm_compute.
  - destruct Hkept as (_ & Hnodes & _). exact Hnodes.
Defined.

(** C1, as the specification has it, fails. The builder holds, at address 0,
    a model of the host h0 and has a scope stored; the empty scope is
    applied. A rebuild is decided, but no model is allocated: the object at
    address 0 is returned, and h0 is still in it although the compute service
    was never asked about h0 during the rebuild. *)
Lemma rebuild_keeps_held_model :
  _check_model_scope Py2 [] Scenario.holding =
    (Ok true, set_self_model_scope ∅ Scenario.holding) ∧
  self_model Scenario.holding = Some 0%nat ∧
  dom (nodes (deref Scenario.holding 0%nat)) = {[ "h0" ]} ∧
  ∃ w', execute Py2 Scenario.cloud Scenario.always_true [] Scenario.holding =
          (Ok (Some 0%nat), w') ∧
        dom (heap w') = dom (heap Scenario.holding) ∧
        dom (nodes (deref w' 0%nat)) = {[ "h0"; "h1" ]} ∧
        calls w' = [GetComputeNodeList; GetComputeNodeByName "h1"; GetComputeNodeById 1;
                    FindInstance "i1"; GetComputeNodeByName "h2"].
Proof.
  split; [by vm_compute|]. split; [done|]. split; [by vm_compute|].
  eexists. split; [by vm_compute|]. split; [by vm_compute|]. split; by vm_compute.
Qed.

(** ** Nova model builder: instances without a host *)

Section Unhosted.
Variable nova_helper : NovaHelper.

(** [add_instance_node] stops at the first instance it finds whose record
    names no host: the instance is added, and looking up its host raises,
    which nothing catches. *)
Lemma add_instance_node_unhosted (node : Hypervisor) (s : ServerRef)
    (others : list ServerRef) (inst : Server) (state : string) (w : World) (a : addr) :
  hv_servers node = Some (s :: others) →
  find_instance nova_helper (ref_uuid s) = Ok inst →
  vm_state inst = Present state →
  srv_host inst = Present None →
  self_model w = Some a →
  ∃ w', add_instance_node nova_helper node w = (Raise (ComputeNodeNotFound None), w') ∧
        calls w' = calls w ++ [FindInstance (ref_uuid s)] ∧
        deref w' a = add_instance (instance_node inst) (deref w a).
Proof.
  intros Hs Hfind Hstate Hhost Hmodel.
  unfold add_instance_node. rewrite Hs. simpl.
  unfold add_listed_instance, try_except, nova, remote, _build_instance_node, on_model,
    model_get_node_by_uuid, getattr, gets, modify, reads, raise, mbind, M_bind, mret, M_ret.
  rewrite Hfind. simpl. rewrite Hstate. simpl. rewrite Hmodel. simpl.
  rewrite Hhost. simpl. rewrite Hmodel. simpl.
  eexists. split; [reflexivity|]. split; [done|].
  unfold deref, instance_node. simpl. rewrite lookup_total_insert_eq.
  by rewrite Hstate.
Qed.

(** The same record with its host attribute missing altogether. *)
Lemma add_instance_node_no_host_attribute (node : Hypervisor) (s : ServerRef)
    (others : list ServerRef) (inst : Server) (state : string) (w : World) (a : addr) :
  hv_servers node = Some (s :: others) →
  find_instance nova_helper (ref_uuid s) = Ok inst →
  vm_state inst = Present state →
  srv_host inst = Missing →
  self_model w = Some a →
  ∃ w', add_instance_node nova_helper node w =
          (Raise (AttributeError "OS-EXT-SRV-ATTR:host"), w').
Proof.
  intros Hs Hfind Hstate Hhost Hmodel.
  unfold add_instance_node. rewrite Hs. simpl.
  unfold add_listed_instance, try_except, nova, remote, _build_instance_node, on_model,
    model_get_node_by_uuid, getattr, gets, modify, reads, raise, mbind, M_bind, mret, M_ret.
  rewrite Hfind. simpl. rewrite Hstate. simpl. rewrite Hmodel. simpl.
  rewrite Hhost. simpl. by eexists.
Qed.

(** [_add_virtual_servers] takes such a record in its stride: the instance is
    added, nothing is mapped, and the loop goes on. *)
Lemma add_virtual_server_unhosted (inst : Server) (state : string) (w : World) (a : addr) :
  vm_state inst = Present state →
  srv_host inst = Present None →
  self_model w = Some a →
  add_virtual_server inst w =
    (Ok tt, set_heap (<[a := add_instance (instance_node inst) (deref w a)]> (heap w)) w).
Proof.
  intros Hstate Hhost Hmodel.
  unfold add_virtual_server, _build_instance_node, on_model, getattr, gets, modify,
    mbind, M_bind, mret, M_ret.
  rewrite Hstate. simpl. rewrite Hmodel. simpl. rewrite Hhost. simpl.
  unfold instance_node. by rewrite Hstate.
Qed.

End Unhosted.

(** C4. The instance i0, listed by the node h3, has a record whose host is
    [None]. [add_instance_node], which the build runs for every node it
    adds, adds i0 to the model and then raises [ComputeNodeNotFound]: the
    error reaches the caller of [_add_physical_layer] and the build stops.
    [_add_virtual_servers], given the same record, adds the instance
    unmapped and goes on to the next one. *)
Theorem unhosted_instance_aborts_the_build :
  find_instance Scenario.cloud "i0" = Ok (Scenario.server "i0" None) ∧
  srv_host (Scenario.server "i0" None) = Present None ∧
  (∃ w', add_instance_node Scenario.cloud Scenario.h3 Scenario.building =
           (Raise (ComputeNodeNotFound None), w') ∧
         dom (instances (deref w' 0%nat)) = {[ "i0" ]} ∧
         mapping (deref w' 0%nat) = ∅) ∧
  (∃ w', _add_physical_layer Scenario.cloud Scenario.building_spare =
           (Raise (ComputeNodeNotFound None), w')) ∧
  (∃ w', _add_virtual_servers Scenario.cloud Scenario.building = (Ok tt, w') ∧
         dom (instances (deref w' 0%nat)) = {[ "i0"; "i1" ]} ∧
         mapping (deref w' 0%nat) = ∅).
Proof.
  split; [done|]. split; [done|]. split; [|split].
  - eexists. split; [by vm_compute|]. split; by vm_compute.
  - eexists. by vm_compute.
  - eexists. split; [by vm_compute|]. split; by vm_compute.
Qed.

(** ** Nova model builder: the physical layer *)

Section PhysicalLayer.
Variable nova_helper : NovaHelper.

(** *** What a host and its instances add to a model *)

Lemma placed_all_nodes n l m : nodes (foldl (placed n) m l) = nodes m.
Proof. revert m. induction l as [|x l IH]; intros m; simpl; [done|]. by rewrite IH. Qed.

Lemma placed_all_instances n l m :
  dom (instances (foldl (placed n) m l)) = dom (instances m) ∪ list_to_set (srv_id <$> l).
Proof.
  revert m. induction l as [|x l IH]; intros m.
  - simpl. by rewrite (right_id_L ∅ (∪)).
  - simpl foldl. rewrite IH. simpl. rewrite dom_insert_L.
    by rewrite (comm_L (∪) {[srv_id x]}), (assoc_L (∪)).
Qed.

Lemma placed_all_mapping n l m i :
  mapping (foldl (placed n) m l) !! i =
    if decide (i ∈ srv_id <$> l) then Some (cn_uuid n) else mapping m !! i.
Proof.
  revert m. induction l as [|x l IH]; intros m.
  - case_decide as H; [by apply elem_of_nil in H | done].
  - simpl foldl. rewrite IH. rewrite fmap_cons.
    destruct (decide (i ∈ srv_id <$> l)) as [Hin|Hout].
    + rewrite decide_True; [done|]. by right.
    + destruct (decide (i = srv_id x)) as [->|Hne].
      * rewrite decide_True by left. apply lookup_insert_eq.
      * rewrite decide_False.
        -- by apply lookup_insert_ne.
        -- intros [?|?]%elem_of_cons; done.
Qed.

Lemma host_layer_nodes node info m :
  nodes (host_layer nova_helper node info m) =
    <[hv_service_host info := build_compute_node info]> (nodes m).
Proof. unfold host_layer. by rewrite placed_all_nodes. Qed.

Lemma host_layer_instances node info m :
  dom (instances (host_layer nova_helper node info m)) =
    dom (instances m) ∪ list_to_set (srv_id <$> found_instances nova_helper node).
Proof. unfold host_layer. by rewrite placed_all_instances. Qed.

Lemma host_layer_mapping node info m i :
  mapping (host_layer nova_helper node info m) !! i =
    if decide (i ∈ srv_id <$> found_instances nova_helper node)
    then Some (hv_service_host info) else mapping m !! i.
Proof. unfold host_layer. by rewrite placed_all_mapping. Qed.

(** *** One instance, one host *)

Lemma add_listed_instance_lost uuid e w :
  find_instance nova_helper uuid = Raise e →
  add_listed_instance nova_helper uuid w = (Ok tt, record_call (FindInstance uuid) w).
Proof.
  intros H. unfold add_listed_instance, try_except, nova, remote, mbind, M_bind.
  by rewrite H.
Qed.

Lemma add_listed_instance_found uuid inst u n w a :
  find_instance nova_helper uuid = Ok inst →
  vm_state inst ≠ Missing →
  srv_host inst = Present (Some u) →
  self_model w = Some a →
  nodes (deref w a) !! u = Some n →
  ∃ w', add_listed_instance nova_helper uuid w = (Ok tt, w') ∧
        self_model w' = Some a ∧
        deref w' a = placed n (deref w a) inst.
Proof.
  intros Hfind Hstate Hhost Hmodel Hnode.
  destruct (vm_state inst) as [|state] eqn:Est; [done|].
  unfold add_listed_instance, try_except, nova, remote, _build_instance_node, on_model,
    model_get_node_by_uuid, getattr, gets, modify, reads, raise, mbind, M_bind, mret, M_ret.
  rewrite Hfind. simpl. rewrite Est. simpl. rewrite Hmodel. simpl.
  rewrite Hhost. simpl. rewrite Hmodel. simpl.
  match goal with
  | |- context [get_node_by_uuid ?x ?m] => assert (get_node_by_uuid x m = Ok n) as ->
  end.
  { unfold get_node_by_uuid, deref in *. simpl.
    rewrite lookup_total_insert_eq. simpl. by rewrite Hnode. }
  rewrite Hmodel. simpl.
  eexists. split; [reflexivity|]. split; [done|].
  unfold deref. simpl. rewrite !lookup_total_insert_eq.
  unfold placed, instance_node. by rewrite Est.
Qed.

Lemma add_instance_node_found node u n w a :
  self_model w = Some a →
  nodes (deref w a) !! u = Some n →
  (∀ inst, inst ∈ found_instances nova_helper node →
           vm_state inst ≠ Missing ∧ srv_host inst = Present (Some u)) →
  ∃ w', add_instance_node nova_helper node w = (Ok tt, w') ∧
        self_model w' = Some a ∧
        deref w' a = foldl (placed n) (deref w a) (found_instances nova_helper node).
Proof.
  unfold add_instance_node, found_instances.
  destruct (hv_servers node) as [refs|]; [|by eexists].
  revert w. induction refs as [|s refs IH]; intros w Hmodel Hnode Hfound; simpl.
  { by eexists. }
  destruct (find_instance nova_helper (ref_uuid s)) as [inst|e] eqn:Efind.
  - destruct (Hfound inst) as [Hstate Hhost].
    { simpl. rewrite Efind. by left. }
    destruct (add_listed_instance_found _ _ _ _ _ _ Efind Hstate Hhost Hmodel Hnode)
      as (w1 & Hstep & Hmodel1 & Hderef1).
    destruct (IH w1) as (w2 & Hrest & Hmodel2 & Hderef2).
    + done.
    + rewrite Hderef1. unfold placed. simpl. done.
    + intros i Hi. apply Hfound. simpl. rewrite Efind. by right.
    + exists w2. split; [|split; [done|]].
      * unfold mbind, M_bind. by rewrite Hstep.
      * by rewrite Hderef2, Hderef1.
  - destruct (IH (record_call (FindInstance (ref_uuid s)) w)) as (w2 & Hrest & Hmodel2 & Hderef2).
    + done.
    + done.
    + intros i Hi. apply Hfound. simpl. by rewrite Efind.
    + exists w2. split; [|split; [done|]].
      * unfold mbind, M_bind. by rewrite (add_listed_instance_lost _ _ _ Efind).
      * done.
Qed.

Lemma add_physical_node_gone name w :
  get_compute_node_by_name nova_helper name = Ok [] →
  add_physical_node nova_helper name w = (Ok tt, record_call (GetComputeNodeByName name) w).
Proof.
  intros H. unfold add_physical_node, nova, remote, mbind, M_bind. by rewrite H.
Qed.

(** A search that raises is not caught: only an empty answer is skipped. *)
Lemma add_physical_node_failure name e w :
  get_compute_node_by_name nova_helper name = Raise e →
  add_physical_node nova_helper name w = (Raise e, record_call (GetComputeNodeByName name) w).
Proof.
  intros H. unfold add_physical_node, nova, remote, mbind, M_bind. by rewrite H.
Qed.

Lemma add_physical_node_known name node info w a :
  known_host nova_helper name node info →
  self_model w = Some a →
  ∃ w', add_physical_node nova_helper name w = (Ok tt, w') ∧
        self_model w' = Some a ∧
        deref w' a = host_layer nova_helper node info (deref w a).
Proof.
  intros ([others Hname] & Hid & Hfound) Hmodel.
  set (w1 := set_heap (<[a := add_node (build_compute_node info)
                                  (deref w a)]> (heap w))
               (record_call (GetComputeNodeById (hv_id node))
                  (record_call (GetComputeNodeByName name) w))).
  destruct (add_instance_node_found node (hv_service_host info) (build_compute_node info) w1 a)
    as (w2 & Hinst & Hmodel2 & Hderef2).
  { done. }
  { unfold w1, deref. simpl. rewrite lookup_total_insert_eq. simpl. apply lookup_insert_eq. }
  { done. }
  exists w2. split; [|split; [done|]].
  - unfold add_physical_node, add_compute_node, on_model, nova, remote, gets, modify,
      mbind, M_bind.
    rewrite Hname, Hid. simpl. rewrite Hmodel. exact Hinst.
  - rewrite Hderef2. unfold host_layer, w1, deref. simpl.
    by rewrite lookup_total_insert_eq.
Qed.

End PhysicalLayer.

Section PhysicalLoop.
Variable nova_helper : NovaHelper.
Variable gone : string.
Variables node info : string → Hypervisor.

Let uuid (name : string) : string := hv_service_host (info name).
Let present (names : list string) : list string := filter (λ name, name ≠ gone) names.

Lemma layers_cons (name : string) (names : list string) (m : ModelRoot) :
  layers nova_helper node info (name :: names) m =
    layers nova_helper node info names
      (host_layer nova_helper (node name) (info name) m).
Proof. reflexivity. Qed.

(** *** The loop over the resolved names *)

Lemma physical_loop (names : list string) (w : World) (a : addr) :
  self_model w = Some a →
  get_compute_node_by_name nova_helper gone = Ok [] →
  (∀ name, name ∈ names → name ≠ gone →
           known_host nova_helper name (node name) (info name)) →
  ∃ w', for_each names (add_physical_node nova_helper) w = (Ok tt, w') ∧
        self_model w' = Some a ∧
        deref w' a = layers nova_helper node info (present names) (deref w a).
Proof.
  intros Hmodel Hgone. revert w Hmodel.
  induction names as [|name names IH]; intros w Hmodel Hknown.
  { by exists w. }
  destruct (decide (name = gone)) as [->|Hne].
  - destruct (IH (record_call (GetComputeNodeByName gone) w)) as (w' & Hrest & Hm' & Hd').
    + done.
    + intros h Hh. apply Hknown. by right.
    + exists w'. split; [|split; [done|]].
      * simpl. unfold mbind, M_bind. by rewrite (add_physical_node_gone _ _ _ Hgone).
      * unfold present. rewrite filter_cons_False by (by intros []). exact Hd'.
  - destruct (add_physical_node_known nova_helper name (node name) (info name) w a)
      as (w1 & Hstep & Hm1 & Hd1).
    + apply Hknown; [by left | done].
    + done.
    + destruct (IH w1) as (w' & Hrest & Hm' & Hd').
      * done.
      * intros h Hh. apply Hknown. by right.
      * exists w'. split; [|split; [done|]].
        -- simpl. unfold mbind, M_bind. by rewrite Hstep.
        -- unfold present. rewrite filter_cons_True by done.
           rewrite layers_cons, <- Hd1. exact Hd'.
Qed.

(** *** The hosts of the model that results *)

Lemma layers_nodes_dom (names : list string) (m : ModelRoot) :
  dom (nodes (layers nova_helper node info names m)) =
    dom (nodes m) ∪ list_to_set (uuid <$> names).
Proof.
  revert m. induction names as [|name names IH]; intros m.
  - simpl. by rewrite (right_id_L ∅ (∪)).
  - rewrite layers_cons, IH, host_layer_nodes, dom_insert_L, fmap_cons, list_to_set_cons.
    by rewrite (assoc_L (∪)), (comm_L (∪) {[hv_service_host (info name)]}).
Qed.

Lemma layers_nodes_other (names : list string) (m : ModelRoot) (u : string) :
  (∀ name, name ∈ names → uuid name ≠ u) →
  nodes (layers nova_helper node info names m) !! u = nodes m !! u.
Proof.
  revert m. induction names as [|name names IH]; intros m Hother; [done|].
  rewrite layers_cons, IH.
  - rewrite host_layer_nodes. apply lookup_insert_ne. apply Hother. by left.
  - intros h Hh. apply Hother. by right.
Qed.

Lemma layers_nodes_lookup (names : list string) (m : ModelRoot) (name : string) :
  (∀ h1 h2, h1 ∈ names → h2 ∈ names → uuid h1 = uuid h2 → h1 = h2) →
  name ∈ names →
  nodes (layers nova_helper node info names m) !! uuid name =
    Some (build_compute_node (info name)).
Proof.
  revert m. induction names as [|x names IH]; intros m Hinj Hin.
  { by apply elem_of_nil in Hin. }
  rewrite layers_cons.
  destruct (decide (name ∈ names)) as [Hlater|Hlast].
  - apply IH; [|done]. intros h1 h2 H1 H2. apply Hinj; by right.
  - apply elem_of_cons in Hin as [->|?]; [|done].
    rewrite layers_nodes_other.
    + rewrite host_layer_nodes. apply lookup_insert_eq.
    + intros h Hh Heq. apply Hlast.
      rewrite <- (Hinj h x); [done | by right | by left | done].
Qed.

Lemma layers_nodes_size (names : list string) (m : ModelRoot) :
  nodes m = ∅ → NoDup names →
  (∀ h1 h2, h1 ∈ names → h2 ∈ names → uuid h1 = uuid h2 → h1 = h2) →
  size (nodes (layers nova_helper node info names m)) = length names.
Proof.
  intros Hempty Hnodup Hinj.
  rewrite <- size_dom, layers_nodes_dom, Hempty, dom_empty_L, (left_id_L ∅ (∪)).
  rewrite size_list_to_set, length_fmap; [done|].
  by apply NoDup_fmap_2_strong.
Qed.

(** *** The instances of the model that results *)

Lemma layers_instances_mono (names : list string) (m : ModelRoot) :
  dom (instances m) ⊆ dom (instances (layers nova_helper node info names m)).
Proof.
  revert m. induction names as [|name names IH]; intros m; [done|].
  rewrite layers_cons. etrans; [|apply IH].
  rewrite host_layer_instances. apply union_subseteq_l.
Qed.

Lemma layers_instances (names : list string) (m : ModelRoot) (name : string) (inst : Server) :
  name ∈ names → inst ∈ found_instances nova_helper (node name) →
  srv_id inst ∈ dom (instances (layers nova_helper node info names m)).
Proof.
  revert m. induction names as [|x names IH]; intros m Hin Hfound.
  { by apply elem_of_nil in Hin. }
  rewrite layers_cons.
  apply elem_of_cons in Hin as [->|Hin]; [|by apply IH].
  apply layers_instances_mono. rewrite host_layer_instances.
  apply elem_of_union_r, elem_of_list_to_set, list_elem_of_fmap. eauto.
Qed.

Lemma layers_mapping_origin (names : list string) (m : ModelRoot) (i : string) :
  mapping (layers nova_helper node info names m) !! i = mapping m !! i ∨
  ∃ name, name ∈ names ∧
          mapping (layers nova_helper node info names m) !! i = Some (uuid name).
Proof.
  revert m. induction names as [|x names IH]; intros m; [by left|].
  rewrite layers_cons.
  destruct (IH (host_layer nova_helper (node x) (info x) m)) as [Hsame|(h & Hh & Hmap)].
  - rewrite Hsame, host_layer_mapping. case_decide.
    + right. exists x. split; [by left | done].
    + by left.
  - right. exists h. split; [by right | done].
Qed.

Lemma layers_mapping (names : list string) (m : ModelRoot) (name : string) (inst : Server) :
  name ∈ names → inst ∈ found_instances nova_helper (node name) →
  ∃ name', name' ∈ names ∧
           mapping (layers nova_helper node info names m) !! srv_id inst = Some (uuid name').
Proof.
  revert m. induction names as [|x names IH]; intros m Hin Hfound.
  { by apply elem_of_nil in Hin. }
  rewrite layers_cons.
  apply elem_of_cons in Hin as [->|Hin].
  - destruct (layers_mapping_origin names (host_layer nova_helper (node x) (info x) m)
                (srv_id inst)) as [Hsame|(h & Hh & Hmap)].
    + exists x. split; [by left|].
      rewrite Hsame, host_layer_mapping, decide_True; [done|].
      apply list_elem_of_fmap. eauto.
    + exists h. split; [by right | done].
  - destruct (IH (host_layer nova_helper (node x) (info x) m) Hin Hfound) as (h & Hh & Hmap).
    exists h. split; [by right | done].
Qed.

(** An instance is mapped to the host of a name whose node lists it: the
    last such name in the order of the loop. *)
Lemma layers_mapping_listed (names : list string) (m : ModelRoot) (i : string) :
  mapping (layers nova_helper node info names m) !! i = mapping m !! i ∨
  ∃ name, name ∈ names ∧
          i ∈ srv_id <$> found_instances nova_helper (node name) ∧
          mapping (layers nova_helper node info names m) !! i = Some (uuid name).
Proof.
  revert m. induction names as [|x names IH]; intros m; [by left|].
  rewrite layers_cons.
  destruct (IH (host_layer nova_helper (node x) (info x) m)) as [Hsame|(h & Hh & Hl & Hmap)].
  - rewrite Hsame, host_layer_mapping. case_decide.
    + right. exists x. split; [by left | done].
    + by left.
  - right. exists h. split; [by right | done].
Qed.

Lemma layers_mapping_of_listed (names : list string) (m : ModelRoot) (name : string)
    (inst : Server) :
  name ∈ names → inst ∈ found_instances nova_helper (node name) →
  ∃ name' inst', name' ∈ names ∧
                 inst' ∈ found_instances nova_helper (node name') ∧
                 srv_id inst' = srv_id inst ∧
                 mapping (layers nova_helper node info names m) !! srv_id inst =
                   Some (uuid name').
Proof.
  revert m. induction names as [|x names IH]; intros m Hin Hfound.
  { by apply elem_of_nil in Hin. }
  rewrite layers_cons.
  apply elem_of_cons in Hin as [->|Hin].
  - destruct (layers_mapping_listed names (host_layer nova_helper (node x) (info x) m)
                (srv_id inst)) as [Hsame|(h & Hh & Hl & Hmap)].
    + exists x, inst. split; [by left|]. split; [done|]. split; [done|].
      rewrite Hsame, host_layer_mapping, decide_True; [done|].
      apply list_elem_of_fmap. eauto.
    + apply list_elem_of_fmap in Hl as (inst' & Heq & Hinst').
      exists h, inst'. split; [by right | done].
  - destruct (IH (host_layer nova_helper (node x) (info x) m) Hin Hfound)
      as (h & inst' & Hh & Hi & Heq & Hmap).
    exists h, inst'. split; [by right | done].
Qed.

(** *** The names that are left when one has gone *)

Lemma present_elem (names : list string) (name : string) :
  name ∈ present names ↔ name ∈ names ∧ name ≠ gone.
Proof. unfold present. rewrite list_elem_of_filter. tauto. Qed.

Lemma present_all (names : list string) : gone ∉ names → present names = names.
Proof.
  induction names as [|x names IH]; intros Hout; [done|].
  unfold present in *. rewrite filter_cons_True.
  - rewrite IH; [done|]. intros ?. apply Hout. by right.
  - intros ->. apply Hout. by left.
Qed.

Lemma present_length (names : list string) :
  NoDup names → gone ∈ names → length (present names) = (length names - 1)%nat.
Proof.
  induction 1 as [|x names Hx Hnodup IH]; intros Hin.
  { by apply elem_of_nil in Hin. }
  unfold present in *. destruct (decide (x = gone)) as [->|Hne].
  - rewrite filter_cons_False by (by intros []).
    fold (present names). rewrite present_all by done. simpl. lia.
  - rewrite filter_cons_True by done. simpl.
    apply elem_of_cons in Hin as [->|Hin]; [done|].
    rewrite IH by done. destruct names; [by apply elem_of_nil in Hin | simpl; lia].
Qed.

End PhysicalLoop.

(** C6. The scope resolves to a set of names of which exactly one, [gone],
    is answered by the search with an empty result, no exception. For every
    other name the search and the detail fetch answer, every instance found
    for it has its state and names that host as its host, and different
    names have different service hosts. Then [_add_physical_layer] returns
    normally. The hosts of the model it leaves are those it had before and
    the hosts of the other names, each with the record fetched for it; every
    instance found for one of these hosts is in the model, mapped to one of
    these hosts whose node lists an instance of that id, which is its own
    host when no other node lists that id; and a model that was empty now
    has one host less than there are names. *)
Theorem missing_host_is_skipped (nova_helper : NovaHelper) (w w1 : World) (a : addr)
    (resolved : gset string) (gone : string) (node info : string → Hypervisor) :
  self_model w = Some a →
  compute_nodes_of_scope nova_helper w = (Ok resolved, w1) →
  gone ∈ resolved →
  get_compute_node_by_name nova_helper gone = Ok [] →
  (∀ name, name ∈ resolved → name ≠ gone →
           known_host nova_helper name (node name) (info name)) →
  (∀ h1 h2, h1 ∈ resolved → h2 ∈ resolved → h1 ≠ gone → h2 ≠ gone →
            hv_service_host (info h1) = hv_service_host (info h2) → h1 = h2) →
  ∃ w2, _add_physical_layer nova_helper w = (Ok tt, w2) ∧
    let before := deref w a in
    let built := deref w2 a in
    (∀ u, u ∈ dom (nodes built) ↔
          u ∈ dom (nodes before) ∨
          ∃ name, name ∈ resolved ∧ name ≠ gone ∧ u = hv_service_host (info name)) ∧
    (∀ name, name ∈ resolved → name ≠ gone →
             nodes built !! hv_service_host (info name) =
               Some (build_compute_node (info name))) ∧
    (∀ name inst, name ∈ resolved → name ≠ gone →
                  inst ∈ found_instances nova_helper (node name) →
                  srv_id inst ∈ dom (instances built) ∧
                  ∃ name' inst', name' ∈ resolved ∧ name' ≠ gone ∧
                                 inst' ∈ found_instances nova_helper (node name') ∧
                                 srv_id inst' = srv_id inst ∧
                                 mapping built !! srv_id inst =
                                   Some (hv_service_host (info name'))) ∧
    (∀ name inst, name ∈ resolved → name ≠ gone →
                  inst ∈ found_instances nova_helper (node name) →
                  (∀ name' inst', name' ∈ resolved → name' ≠ gone →
                                  inst' ∈ found_instances nova_helper (node name') →
                                  srv_id inst' = srv_id inst → name' = name) →
                  mapping built !! srv_id inst = Some (hv_service_host (info name))) ∧
    (nodes before = ∅ → size (nodes built) = (size resolved - 1)%nat).
Proof.
  intros Hmodel Hres Hgone_in Hgone Hknown Hinj.
  destruct (compute_nodes_of_scope_untouched _ _ _ _ Hres) as (Hm1 & _ & Hh1).
  destruct (physical_loop nova_helper gone node info (elements resolved) w1 a)
    as (w2 & Hloop & Hm2 & Hd2).
  { congruence. }
  { done. }
  { intros name Hin%elem_of_elements Hne. by apply Hknown. }
  exists w2. split.
  { unfold _add_physical_layer. by rewrite (bind_ok _ _ _ _ _ Hres). }
  assert (deref w1 a = deref w a) as Hd1 by (unfold deref; by rewrite Hh1).
  rewrite Hd1 in Hd2. cbv zeta. rewrite Hd2. clear Hd1 Hd2 Hloop Hm2.
  set (names := filter (λ name, name ≠ gone) (elements resolved)).
  assert (∀ name, name ∈ names ↔ name ∈ resolved ∧ name ≠ gone) as Hnames.
  { intros name. unfold names. rewrite list_elem_of_filter, elem_of_elements. tauto. }
  assert (NoDup names) as Hnodup by apply NoDup_filter, NoDup_elements.
  assert (∀ h1 h2, h1 ∈ names → h2 ∈ names →
                   hv_service_host (info h1) = hv_service_host (info h2) → h1 = h2)
    as Hinj'.
  { intros h1 h2 [? ?]%Hnames [? ?]%Hnames. by apply Hinj. }
  split; [|split; [|split; [|split]]].
  - intros u. rewrite layers_nodes_dom, elem_of_union, elem_of_list_to_set, list_elem_of_fmap.
    split.
    + intros [?|(name & -> & [? ?]%Hnames)]; [by left|]. right. by exists name.
    + intros [?|(name & ? & ? & ->)]; [by left|]. right. exists name.
      split; [done|]. by apply Hnames.
  - intros name Hin Hne. apply layers_nodes_lookup; [done|]. by apply Hnames.
  - intros name inst Hin Hne Hfound.
    assert (name ∈ names) as Hname by by apply Hnames.
    split; [by apply (layers_instances _ _ _ _ _ name)|].
    destruct (layers_mapping_of_listed nova_helper node info names (deref w a) name inst
                Hname Hfound) as (name' & inst' & [? ?]%Hnames & Hlisted & Hid & Hmap).
    by exists name', inst'.
  - intros name inst Hin Hne Hfound Honly.
    assert (name ∈ names) as Hname by by apply Hnames.
    destruct (layers_mapping_of_listed nova_helper node info names (deref w a) name inst
                Hname Hfound) as (name' & inst' & [? ?]%Hnames & Hlisted & Hid & Hmap).
    by rewrite <- (Honly name' inst').
  - intros Hempty. rewrite layers_nodes_size by done.
    unfold names. rewrite present_length; [done | apply NoDup_elements |].
    by apply elem_of_elements.
Qed.

(** The scope names the aggregate "gpu-pool", of h1 and h2, and h2 has gone:
    the model is left with h1 alone, and with the instance i1 on it. *)
Lemma missing_host_is_skipped_witness :
  ∃ w2, _add_physical_layer Scenario.cloud Scenario.building_gpu_pool = (Ok tt, w2) ∧
        nodes (deref w2 0%nat) !! "h1" = Some (build_compute_node Scenario.h1) ∧
        mapping (deref w2 0%nat) !! "i1" = Some "h1" ∧
        size (nodes (deref w2 0%nat)) = 1%nat.
Proof.
  assert (∀ name : string, name ∈ ({[ "h1"; "h2" ]} : gset string) → name ≠ "h2" →
                           name = "h1") as Honly.
  { intros name Hin Hne.
    apply elem_of_union in Hin as [Hin|Hin]; apply elem_of_singleton in Hin; done. }
  destruct (missing_host_is_skipped Scenario.cloud Scenario.building_gpu_pool
              (record_call GetAggregateList Scenario.building_gpu_pool) 0%nat
              {[ "h1"; "h2" ]} "h2" (λ _, Scenario.h1) (λ _, Scenario.h1))
    as (w2 & Hlayer & _ & Hlookup & _ & Hown & Hsize).
  - reflexivity.
  - by vm_compute.
  - apply elem_of_union_r, elem_of_singleton. reflexivity.
  - reflexivity.
  - intros name Hin Hne. rewrite (Honly name Hin Hne).
    split; [by eexists|]. split; [reflexivity|].
    intros inst Hinst. apply list_elem_of_singleton in Hinst. subst inst. by split.
  - intros h1 h2 Hin1 Hin2 Hne1 Hne2 _.
    by rewrite (Honly h1 Hin1 Hne1), (Honly h2 Hin2 Hne2).
  - exists w2. split; [done|]. split; [|split].
    + apply (Hlookup "h1"); [|done]. apply elem_of_union_l, elem_of_singleton. reflexivity.
    + apply (Hown "h1" (Scenario.server "i1" (Some "h1"))).
      * apply elem_of_union_l, elem_of_singleton. reflexivity.
      * done.
      * apply list_elem_of_singleton. reflexivity.
      * intros name' inst' Hin Hne _ _. exact (Honly name' Hin Hne).
    + rewrite Hsize by reflexivity. by vm_compute.
Defined.

(** C6, as the specification has it, fails. The scope names the aggregate
    "gpu-pool", which resolves to h1 and h2, and h1 is known. When the search
    finds h2 and the detail fetch of its id raises [NotFound], h2 is not
    skipped: [NotFound] reaches the caller of [_add_physical_layer]. The same
    happens when it is the search for h2 that raises [NotFound]. *)
Lemma not_found_aborts_the_build :
  ((compute_nodes_of_scope Situations.cloud_detail_raises Scenario.building_gpu_pool).1 =
     Ok {[ "h1"; "h2" ]} ∧
   get_compute_node_by_name Situations.cloud_detail_raises "h1" = Ok [Scenario.h1] ∧
   get_compute_node_by_id Situations.cloud_detail_raises 1 = Ok Scenario.h1 ∧
   get_compute_node_by_name Situations.cloud_detail_raises "h2" = Ok [Scenario.h2] ∧
   get_compute_node_by_id Situations.cloud_detail_raises 2 = Raise NotFound ∧
   (_add_physical_layer Situations.cloud_detail_raises Scenario.building_gpu_pool).1 =
     Raise NotFound) ∧
  ((compute_nodes_of_scope Situations.cloud_search_raises Scenario.building_gpu_pool).1 =
     Ok {[ "h1"; "h2" ]} ∧
   get_compute_node_by_name Situations.cloud_search_raises "h1" = Ok [Scenario.h1] ∧
   get_compute_node_by_id Situations.cloud_search_raises 1 = Ok Scenario.h1 ∧
   get_compute_node_by_name Situations.cloud_search_raises "h2" = Raise NotFound ∧
   (_add_physical_layer Situations.cloud_search_raises Scenario.building_gpu_pool).1 =
     Raise NotFound).
Proof. split; repeat split; by vm_compute. Qed.

(** * Further properties *)

(** ** Scope resolution *)

Section ResolutionFacts.
Import NovaSpec.
Variable nova_helper : NovaHelper.

Lemma foldl_union_members {A} (c : A → bool) (g : A → list string) (l : list A)
    (X : gset string) (h : string) :
  h ∈ foldl (λ X a, if c a then X ∪ list_to_set (g a) else X) X l ↔
  h ∈ X ∨ ∃ a, a ∈ l ∧ c a = true ∧ h ∈ g a.
Proof.
  revert X. induction l as [|a l IH]; intros X; simpl.
  - split; [by left|]. intros [?|(a & Ha & _)]; [done|]. by apply elem_of_nil in Ha.
  - rewrite IH. split.
    + intros [Hin|(b & Hb & Hc & Hh)].
      * destruct (c a) eqn:Ec; [|by left].
        apply elem_of_union in Hin as [?|Hin]; [by left|].
        right. exists a. split; [by left|]. split; [done|].
        by apply elem_of_list_to_set in Hin.
      * right. exists b. split; [by right | done].
    + intros [Hin|(b & Hb & Hc & Hh)].
      * left. destruct (c a); [by apply elem_of_union_l | done].
      * apply elem_of_cons in Hb as [->|Hb].
        -- left. rewrite Hc. by apply elem_of_union_r, elem_of_list_to_set.
        -- right. by exists b.
Qed.

Lemma py_in_omap (filter : list item) (key : string) (v : pyval) :
  py_in v (omap (λ entry : item, entry !! key) filter) = true ↔
  ∃ entry, entry ∈ filter ∧ entry !! key = Some v.
Proof. unfold py_in. by rewrite bool_decide_eq_true, list_elem_of_omap. Qed.

Lemma aggregate_test_selects (filter : list item) (aggregate : Aggregate) :
  py_in (PInt (agg_id aggregate)) (omap (λ entry : item, entry !! "id") filter)
  || py_in (PStr (agg_name aggregate)) (omap (λ entry : item, entry !! "name") filter)
  || existsb (λ field, py_in (PStr "*") field)
       [omap (λ entry : item, entry !! "id") filter;
        omap (λ entry : item, entry !! "name") filter] = true ↔
  selects filter aggregate.
Proof.
  simpl. rewrite orb_false_r, !orb_true_iff, !py_in_omap. unfold selects, wildcard_aggregate.
  split.
  - intros [[(e & ? & ?)|(e & ? & ?)]|[(e & ? & ?)|(e & ? & ?)]]; exists e; tauto.
  - intros (e & He & [?|[?|[?|?]]]); eauto 6.
Qed.

Lemma collect_aggregates_result (filter : list item) (_nodes : gset string) (w : World)
    (aggregates : list Aggregate) :
  get_aggregate_list nova_helper = Ok aggregates →
  ∃ collected, _collect_aggregates nova_helper filter _nodes w =
                 (Ok collected, record_call GetAggregateList w) ∧
    ∀ h, h ∈ collected ↔
         h ∈ _nodes ∨
         ∃ aggregate, aggregate ∈ aggregates ∧ selects filter aggregate ∧
                      h ∈ agg_hosts aggregate.
Proof.
  intros Hlist. unfold _collect_aggregates, nova, remote, mbind, M_bind. rewrite Hlist.
  eexists. split; [reflexivity|]. intros h.
  rewrite (foldl_union_members
             (λ aggregate,
                py_in (PInt (agg_id aggregate)) (omap (λ entry : item, entry !! "id") filter)
                || py_in (PStr (agg_name aggregate))
                     (omap (λ entry : item, entry !! "name") filter)
                || existsb (λ field, py_in (PStr "*") field)
                     [omap (λ entry : item, entry !! "id") filter;
                      omap (λ entry : item, entry !! "name") filter])
             agg_hosts).
  split; (intros [?|(a & ? & Ha & ?)]; [by left|]); right; exists a;
    apply aggregate_test_selects in Ha || apply aggregate_test_selects in Ha; done.
Qed.

Lemma zone_test_selects (filter : list item) (service : Service) :
  py_in (PStr (svc_zone service)) (omap (λ zone : item, zone !! "name") filter)
  || py_in (PStr "*") (omap (λ zone : item, zone !! "name") filter) = true ↔
  zone_selects filter service.
Proof.
  rewrite orb_true_iff, !py_in_omap. unfold zone_selects. split.
  - intros [(e & ? & ?)|(e & ? & ?)]; exists e; tauto.
  - intros (e & He & [?|?]); eauto.
Qed.

Lemma chars_length (s h : string) : h ∈ chars s → String.length h = 1%nat.
Proof.
  induction s as [|c s IH]; simpl.
  - intros H. by apply elem_of_nil in H.
  - intros [->|?]%elem_of_cons; [done | by apply IH].
Qed.

Lemma collect_zones_result (filter : list item) (_nodes : gset string) (w : World)
    (services : list Service) :
  get_service_list nova_helper = Ok services →
  Forall (λ zone : item, is_Some (zone !! "name")) filter →
  ∃ collected, _collect_zones nova_helper filter _nodes w =
                 (Ok collected, record_call GetServiceList w) ∧
    ∀ h, h ∈ collected ↔
         h ∈ _nodes ∨
         ∃ service, service ∈ services ∧ zone_selects filter service ∧
                    h ∈ chars (svc_host service).
Proof.
  intros Hlist Hnames. unfold _collect_zones, nova, remote, mbind, M_bind. rewrite Hlist.
  fold (@mbind (M World) _). rewrite zone_names_ok by done.
  eexists. split; [reflexivity|]. intros h.
  rewrite (foldl_union_members
             (λ service,
                py_in (PStr (svc_zone service)) (omap (λ zone : item, zone !! "name") filter)
                || py_in (PStr "*") (omap (λ zone : item, zone !! "name") filter))
             (λ service, chars (svc_host service))).
  split; (intros [?|(a & ? & Ha & ?)]; [by left|]); right; exists a;
    apply zone_test_selects in Ha; done.
Qed.

Lemma zone_names_missing (zones : list item) (w : World) :
  Exists (λ zone : item, zone !! "name" = None) zones →
  map_each zones (λ zone, getitem zone "name") w = (Raise (KeyError "name"), w).
Proof.
  induction zones as [|z zones IH]; intros Hex.
  { by apply Exists_nil in Hex. }
  simpl. unfold mbind, M_bind, getitem in *.
  destruct (z !! "name") as [v|] eqn:Ez; simpl; [|done].
  apply Exists_cons in Hex as [Hz|Hex]; [congruence|].
  by rewrite IH.
Qed.

End ResolutionFacts.

(** X1. The aggregate collector, when the list of aggregates is fetched,
    returns the set it was given together with the hosts of the aggregates
    that the filter selects by id, by name or by the wildcard, and with
    nothing else. *)
Theorem aggregates_resolve_to_selected_hosts (nova_helper : NovaHelper)
    (filter : list item) (_nodes : gset string) (w : World) (aggregates : list Aggregate) :
  get_aggregate_list nova_helper = Ok aggregates →
  ∃ collected, _collect_aggregates nova_helper filter _nodes w =
                 (Ok collected, record_call GetAggregateList w) ∧
    _nodes ⊆ collected ∧
    ∀ h, h ∈ collected ↔
         h ∈ _nodes ∨
         ∃ aggregate, aggregate ∈ aggregates ∧ NovaSpec.selects filter aggregate ∧
                      h ∈ agg_hosts aggregate.
Proof.
  intros Hlist.
  destruct (collect_aggregates_result nova_helper filter _nodes w aggregates Hlist)
    as (collected & Hrun & Hmem).
  exists collected. split; [done|]. split; [|done].
  intros h Hh. apply Hmem. by left.
Qed.

Lemma aggregates_resolve_to_selected_hosts_witness :
  ∃ collected,
    _collect_aggregates Scenario.cloud [Scenario.aggregate_name "gpu-pool"] ∅ init =
      (Ok collected, record_call GetAggregateList init) ∧
    "h2" ∈ collected ∧ "h3" ∉ collected.
Proof.
  destruct (aggregates_resolve_to_selected_hosts Scenario.cloud
              [Scenario.aggregate_name "gpu-pool"] ∅ init _ eq_refl)
    as (collected & Hrun & _ & Hmem).
  exists collected. split; [exact Hrun|]. split.
  - apply Hmem. right. eexists. split; [by left|]. split.
    + exists (Scenario.aggregate_name "gpu-pool"). split; [by left|]. right. by left.
    + simpl. right. by left.
  - intros [Hin|(aggregate & Hagg & (entry & Hentry & Hsel) & Hh)]%Hmem.
    + by apply not_elem_of_empty in Hin.
    + apply list_elem_of_singleton in Hentry. subst entry.
      apply elem_of_cons in Hagg as [->|Hagg].
      * simpl in Hh. apply elem_of_cons in Hh as [?|Hh]; [done|].
        by apply list_elem_of_singleton in Hh.
      * apply list_elem_of_singleton in Hagg. subst aggregate.
        destruct Hsel as [Hsel|[Hsel|[Hsel|Hsel]]]; by vm_compute in Hsel.
Defined.

(** X2. The zone collector, when the list of services is fetched and every
    entry of the filter has a name, returns the set it was given together
    with the characters of the host names of the services that the filter
    selects by zone or by the wildcard; so whatever it adds is a string of
    one character. *)
Theorem zones_resolve_to_host_characters (nova_helper : NovaHelper)
    (filter : list item) (_nodes : gset string) (w : World) (services : list Service) :
  get_service_list nova_helper = Ok services →
  Forall (λ zone : item, is_Some (zone !! "name")) filter →
  ∃ collected, _collect_zones nova_helper filter _nodes w =
                 (Ok collected, record_call GetServiceList w) ∧
    (∀ h, h ∈ collected ↔
          h ∈ _nodes ∨
          ∃ service, service ∈ services ∧ NovaSpec.zone_selects filter service ∧
                     h ∈ chars (svc_host service)) ∧
    (∀ h, h ∈ collected → h ∉ _nodes → String.length h = 1%nat).
Proof.
  intros Hlist Hnames.
  destruct (collect_zones_result nova_helper filter _nodes w services Hlist Hnames)
    as (collected & Hrun & Hmem).
  exists collected. split; [done|]. split; [done|].
  intros h [?|(service & _ & _ & Hh)]%Hmem Hout; [done|].
  by apply chars_length in Hh.
Qed.

Lemma zones_resolve_to_host_characters_witness :
  ∃ collected,
    _collect_zones Scenario.cloud [Scenario.zone "nova"] {[ "h9" ]} init =
      (Ok collected, record_call GetServiceList init) ∧
    ∀ h, h ∈ collected → h ∉ ({[ "h9" ]} : gset string) → String.length h = 1%nat.
Proof.
  destruct (zones_resolve_to_host_characters Scenario.cloud [Scenario.zone "nova"]
              {[ "h9" ]} init _ eq_refl)
    as (collected & Hrun & _ & Hone).
  - repeat constructor. by eexists.
  - by exists collected.
Defined.

(** X3. A zone entry without a name makes the zone collector raise
    [KeyError], after the list of services has been fetched, whatever else
    the filter holds. *)
Theorem nameless_zone_entry_raises (nova_helper : NovaHelper)
    (filter : list item) (_nodes : gset string) (w : World) (services : list Service) :
  get_service_list nova_helper = Ok services →
  Exists (λ zone : item, zone !! "name" = None) filter →
  _collect_zones nova_helper filter _nodes w =
    (Raise (KeyError "name"), record_call GetServiceList w).
Proof.
  intros Hlist Hex. unfold _collect_zones, nova, remote, mbind, M_bind. rewrite Hlist.
  fold (@mbind (M World) _). by rewrite zone_names_missing.
Qed.

Lemma nameless_zone_entry_raises_witness :
  _collect_zones Scenario.cloud [Scenario.zone "nova"; ∅] ∅ init =
    (Raise (KeyError "name"), record_call GetServiceList init).
Proof.
  apply (nameless_zone_entry_raises Scenario.cloud _ _ _ _ eq_refl).
  apply Exists_cons_tl, Exists_cons_hd. reflexivity.
Defined.

Section Fallback.

Lemma nonempty_not_given {A} (o : option (list A)) :
  o = None ∨ o = Some [] → nonempty o = None.
Proof. by intros [->| ->]. Qed.

End Fallback.

(** X4. With no aggregate filter and no zone filter stored (the key missing
    or its list empty) the names to fetch are those of the whole catalog of
    compute nodes, obtained by one call; a failure of that call is the
    outcome. *)
Theorem unscoped_resolves_to_catalog (nova_helper : NovaHelper) (w : World) :
  NovaSpec.not_given (self_model_scope w !! "host_aggregates") →
  NovaSpec.not_given (self_model_scope w !! "availability_zones") →
  compute_nodes_of_scope nova_helper w =
    (match get_compute_node_list nova_helper with
     | Ok all_nodes => Ok (NovaSpec.catalog all_nodes)
     | Raise e => Raise e
     end, record_call GetComputeNodeList w).
Proof.
  intros Ha Hz. unfold compute_nodes_of_scope, gets, mbind, M_bind.
  rewrite (nonempty_not_given _ Ha), (nonempty_not_given _ Hz). simpl.
  unfold nova, remote. by destruct (get_compute_node_list nova_helper).
Qed.

Lemma unscoped_resolves_to_catalog_witness :
  compute_nodes_of_scope Scenario.cloud init =
    (Ok {[ "h1"; "h2" ]}, record_call GetComputeNodeList init).
Proof.
  rewrite (unscoped_resolves_to_catalog Scenario.cloud init); [by vm_compute | by left..].
Defined.

(** X5. An aggregate filter that selects no host (it names no aggregate of
    the compute service, or only aggregates without hosts) does not give an
    empty model: with no zone filter, the names to fetch are again those of
    the whole catalog. *)
Theorem filter_without_hosts_resolves_to_catalog (nova_helper : NovaHelper) (w : World)
    (entry : item) (filter : list item) (aggregates : list Aggregate)
    (all_nodes : list Hypervisor) :
  self_model_scope w !! "host_aggregates" = Some (entry :: filter) →
  NovaSpec.not_given (self_model_scope w !! "availability_zones") →
  get_aggregate_list nova_helper = Ok aggregates →
  (∀ aggregate, aggregate ∈ aggregates → NovaSpec.selects (entry :: filter) aggregate →
                agg_hosts aggregate = []) →
  get_compute_node_list nova_helper = Ok all_nodes →
  compute_nodes_of_scope nova_helper w =
    (Ok (NovaSpec.catalog all_nodes),
     record_call GetComputeNodeList (record_call GetAggregateList w)).
Proof.
  intros Ha Hz Haggs Hnone Hall.
  destruct (collect_aggregates_result nova_helper (entry :: filter) ∅ w aggregates Haggs)
    as (collected & Hrun & Hmem).
  assert (collected = ∅) as ->.
  { apply set_eq. intros h. split; [|intros H; by apply not_elem_of_empty in H].
    intros [H|(aggregate & Hin & Hsel & Hh)]%Hmem; [done|].
    rewrite (Hnone aggregate Hin Hsel) in Hh. by apply elem_of_nil in Hh. }
  unfold compute_nodes_of_scope, gets, mbind, M_bind.
  rewrite Ha. simpl. rewrite Hrun.
  assert (self_model_scope (record_call GetAggregateList w) = self_model_scope w) as _ by done.
  rewrite (nonempty_not_given _ Hz). simpl.
  unfold nova, remote. by rewrite Hall.
Qed.

Lemma filter_without_hosts_resolves_to_catalog_witness :
  compute_nodes_of_scope Scenario.cloud Situations.scoped_nowhere =
    (Ok {[ "h1"; "h2" ]},
     record_call GetComputeNodeList (record_call GetAggregateList Situations.scoped_nowhere)).
Proof.
  rewrite (filter_without_hosts_resolves_to_catalog Scenario.cloud
             Situations.scoped_nowhere (Scenario.aggregate_id 9) []
             [ {| agg_id := 1; agg_name := "gpu-pool"; agg_hosts := ["h1"; "h2"] |};
               {| agg_id := 2; agg_name := "spare"; agg_hosts := ["h3"] |} ]
             [Scenario.h1; Scenario.h2]
             eq_refl (or_introl eq_refl) eq_refl); [by vm_compute | | reflexivity].
  intros aggregate Hin (e & He & Hsel).
  apply list_elem_of_singleton in He. subst e.
  apply elem_of_cons in Hin as [->|Hin];
    [|apply list_elem_of_singleton in Hin; subst aggregate];
    destruct Hsel as [Hsel|[Hsel|[Hsel|Hsel]]]; by vm_compute in Hsel.
Defined.

(** ** The stored scope, further *)

Section MergeFacts.
Import NovaSpec.

(** A loop whose body either passes its flag on or raises, and never changes
    the state, stops at the first element that makes it raise. *)
Lemma fold_each_guard {S A B} (P : A → Prop) `{∀ x, Decision (P x)} (e : A → exn)
    (body : B → A → M S B) (s : S) :
  (∀ flag x, body flag x s = (if bool_decide (P x) then Ok flag else Raise (e x), s)) →
  ∀ l flag,
    fold_each l flag body s =
      (match list_find (λ x, ¬ P x) l with
       | None => Ok flag
       | Some (_, x) => Raise (e x)
       end, s).
Proof.
  intros Hbody. induction l as [|x l IH]; intros flag; [done|].
  simpl. unfold mbind, M_bind. rewrite Hbody.
  destruct (decide (P x)) as [Hx|Hx].
  - rewrite (bool_decide_eq_true_2 _ Hx), IH.
    rewrite decide_False by (by intros ?).
    by destruct (list_find _ l) as [[i y]|].
  - rewrite (bool_decide_eq_false_2 _ Hx). by rewrite decide_True.
Qed.

Lemma merge_role_py2 (w : World) (model_keys : gset string) (flag : bool) (r : role) :
  model_keys = dom (self_model_scope w) →
  (role_key ← first Py2 "dict_keys" (r.*1);
   if negb (bool_decide (role_key ∈ role_keys)) then mret flag
   else
     role_values ← first Py2 "dict_values" (r.*2);
     if bool_decide (role_key ∈ model_keys) then
       fold_each role_values flag (λ update_flag value,
         stored ← gets self_model_scope ≫= (λ d, getitem d role_key);
         if negb (bool_decide (value ∈ stored)) then
           sppend ← list_method "sppend";
           modify (λ w, set_self_model_scope
                          (<[role_key := sppend stored value]> (self_model_scope w)) w);;
           mret true
         else mret update_flag)
     else
       self_attribute "self";;
       modify (λ w, set_self_model_scope
                      (<[role_key := role_values]> (self_model_scope w)) w);;
       mret true) w =
  (if bool_decide (covered (self_model_scope w) r) then Ok flag
   else Raise (merge_error (self_model_scope w) r), w).
Proof.
  intros ->. destruct r as [|[role_key role_values] r']; [done|].
  unfold first. simpl. unfold mbind at 1, M_bind at 1, mret at 1, M_ret at 1.
  destruct (decide (role_key ∈ role_keys)) as [Hkey|Hkey].
  2:{ rewrite (bool_decide_eq_false_2 _ Hkey). simpl.
      rewrite bool_decide_eq_true_2; [done | by left]. }
  rewrite (bool_decide_eq_true_2 _ Hkey). simpl.
  unfold mbind at 1, M_bind at 1, mret at 1, M_ret at 1.
  destruct (self_model_scope w !! role_key) as [held|] eqn:Eheld.
  - rewrite bool_decide_eq_true_2 by (apply elem_of_dom; eauto).
    rewrite (fold_each_guard (λ value, value ∈ held) (λ _, AttributeError "sppend")).
    + destruct (decide (Forall (λ value, value ∈ held) role_values)) as [Hall|Hnot].
      * rewrite bool_decide_eq_true_2 by (by right).
        destruct (list_find _ role_values) as [[i v]|] eqn:Efind; [|done].
        apply list_find_Some in Efind as (Hv%list_elem_of_lookup_2 & Hout & _).
        destruct Hout. rewrite Forall_forall in Hall. by apply Hall.
      * rewrite bool_decide_eq_false_2 by (by intros [?|?]).
        destruct (list_find _ role_values) as [[i v]|] eqn:Efind; [done|].
        destruct Hnot. apply Forall_forall. intros v Hv.
        eapply list_find_None in Efind. rewrite Forall_forall in Efind.
        destruct (decide (v ∈ held)); [done|]. by destruct (Efind v Hv).
    + intros flag' value. unfold gets, getitem, raise, mbind, M_bind, mret, M_ret.
      rewrite Eheld. simpl. by destruct (bool_decide (value ∈ held)).
  - rewrite bool_decide_eq_false_2 by (by apply not_elem_of_dom).
    rewrite bool_decide_eq_false_2 by (by intros [?|?]).
    done.
Qed.

End MergeFacts.

(** X6. Under Python 2, merging a compute scope into the stored scope
    returns [False] exactly when every role is covered: its first key is not
    an inclusion role, or the stored scope has that key with all the values
    of the role. Otherwise the merge raises at the first role that is not
    covered: [IndexError] for an empty role, [AttributeError] for [sppend]
    when the key is stored and for [self] when it is not. The builder is left
    as it was in every case. *)
Theorem merge_passes_only_what_is_stored (compute_scope : list role) (w : World) :
  _merge_compute_scope Py2 compute_scope w =
    (match list_find (λ r, ¬ NovaSpec.covered (self_model_scope w) r) compute_scope with
     | None => Ok false
     | Some (_, r) => Raise (NovaSpec.merge_error (self_model_scope w) r)
     end, w).
Proof.
  unfold _merge_compute_scope, model_scope_keys, gets, mbind at 1, M_bind at 1.
  apply (fold_each_guard (λ r, NovaSpec.covered (self_model_scope w) r)
           (NovaSpec.merge_error (self_model_scope w))).
  intros flag r. by apply merge_role_py2.
Qed.

(** X7. Under Python 3, with a scope stored, any scope that has a role in
    its compute part makes the check raise [TypeError], since the keys of a
    dict cannot be indexed; the builder is left as it was. *)
Theorem check_raises_under_python3 (model_scope : audit_scope) (w : World)
    (r : role) (rest : list role) :
  self_model_scope w ≠ ∅ →
  compute_scope_of model_scope = r :: rest →
  _check_model_scope Py3 model_scope w =
    (Raise (TypeError "'dict_keys' object is not subscriptable"), w).
Proof.
  intros Hstored Hcompute. rewrite check_model_scope_unfold.
  rewrite (bool_decide_eq_true_2 _ Hstored).
  destruct model_scope as [|sc scs]; [done|]. by rewrite Hcompute.
Qed.

Lemma check_raises_under_python3_witness :
  _check_model_scope Py3 Scenario.other_aggregate Scenario.scoped =
    (Raise (TypeError "'dict_keys' object is not subscriptable"), Scenario.scoped).
Proof.
  apply (check_raises_under_python3 _ _ [("host_aggregates", [Scenario.aggregate_id 2])] []).
  - apply (bool_decide_eq_true_1 _). by vm_compute.
  - reflexivity.
Defined.

(** ** [execute], further *)

Section ExecuteFacts.
Variable py : python.
Variable nova_helper : NovaHelper.
Variable model_bool : ModelRoot → bool.

(** The check leaves the builder as it was or with its scope cleared. *)
Lemma check_model_scope_after (model_scope : audit_scope) (w w0 : World) r :
  _check_model_scope py model_scope w = (r, w0) →
  w0 = w ∨ w0 = set_self_model_scope ∅ w.
Proof.
  rewrite check_model_scope_unfold.
  destruct (bool_decide (self_model_scope w ≠ ∅)).
  - destruct model_scope as [|sc rest]; [intros [= <- <-]; by right|].
    destruct (compute_scope_of (sc :: rest)).
    + intros [= <- <-]. by left.
    + intros H. left. by destruct (merge_compute_scope_inert _ _ _ _ _ H).
  - intros [= <- <-]. by left.
Qed.

Lemma check_model_scope_nothing_stored (model_scope : audit_scope) (w : World) :
  self_model_scope w = ∅ →
  _check_model_scope py model_scope w = (Ok false, w).
Proof.
  intros H. rewrite check_model_scope_unfold, H.
  by rewrite bool_decide_eq_false_2 by (by intros ?).
Qed.

(** Allocating a model and building the layer keep the builder's scope. *)
Lemma model_or_new_scope (held : option addr) (w w1 : World) r :
  model_or_new model_bool held w = (r, w1) →
  self_model_scope w1 = self_model_scope w ∧ self_model w1 = self_model w.
Proof.
  destruct (model_or_new_spec model_bool held w) as (a & w' & Hnew & Hcases).
  rewrite Hnew. intros [= <- <-].
  by destruct Hcases as [(_ & _ & ->)|(_ & _ & ->)].
Qed.

End ExecuteFacts.

(** X8. A builder that has no scope stored pays no attention to the scope it
    is given: [execute] does the same, returns the same and leaves the same
    world for any two scopes. *)
Theorem execute_ignores_scope_when_nothing_stored (py : python)
    (nova_helper : NovaHelper) (model_bool : ModelRoot → bool)
    (model_scope other_scope : audit_scope) (w : World) :
  self_model_scope w = ∅ →
  execute py nova_helper model_bool model_scope w =
    execute py nova_helper model_bool other_scope w.
Proof.
  intros H. rewrite !execute_unfold.
  by rewrite !(check_model_scope_nothing_stored py _ w H).
Qed.

Lemma execute_ignores_scope_when_nothing_stored_witness :
  execute Py2 Scenario.cloud Scenario.always_true Scenario.other_aggregate init =
    execute Py2 Scenario.cloud Scenario.always_true [] init.
Proof.
  by apply (execute_ignores_scope_when_nothing_stored Py2 Scenario.cloud
              Scenario.always_true Scenario.other_aggregate [] init).
Defined.

(** X9. [execute] never adds to the stored scope: whatever the scope given
    and whether it returns or raises, the stored scope is afterwards what it
    was or empty. A builder that starts with no scope stored, as every
    builder does, never has one. *)
Theorem stored_scope_never_grows (py : python) (nova_helper : NovaHelper)
    (model_bool : ModelRoot → bool) (model_scope : audit_scope) (w : World) :
  let after := (execute py nova_helper model_bool model_scope w).2 in
  (self_model_scope after = self_model_scope w ∨ self_model_scope after = ∅) ∧
  (self_model_scope w = ∅ → self_model_scope after = ∅).
Proof.
  cbv zeta.
  assert (self_model_scope (execute py nova_helper model_bool model_scope w).2 =
            self_model_scope w ∨
          self_model_scope (execute py nova_helper model_bool model_scope w).2 = ∅) as H.
  { rewrite execute_unfold.
    destruct (_check_model_scope py model_scope w) as [[flag|e] w0] eqn:Hcheck.
    2:{ simpl. by destruct (check_model_scope_after _ _ _ _ _ Hcheck) as [->| ->];
          [left | right]. }
    assert (self_model_scope w0 = self_model_scope w ∨ self_model_scope w0 = ∅) as H0.
    { by destruct (check_model_scope_after _ _ _ _ _ Hcheck) as [->| ->]; [left | right]. }
    destruct (bool_decide (self_model w0 = None) || flag); [|done].
    destruct (model_or_new model_bool (self_model w0) w0) as [[a|e] w1] eqn:Hnew.
    2:{ simpl. destruct (model_or_new_scope _ _ _ _ _ Hnew) as [-> _]. done. }
    destruct (model_or_new_scope _ _ _ _ _ Hnew) as [Hsc1 _].
    destruct (_add_physical_layer nova_helper (set_self_model (Some a) w1))
      as [[[]|e] w2] eqn:Hlayer;
      destruct (forward_add_physical_layer _ _ _ _ Hlayer) as (_ & Hsc2 & _);
      simpl in *; rewrite Hsc2, Hsc1; done. }
  split; [done|]. intros Hempty. rewrite Hempty in H. by destruct H.
Qed.

(** X10. A build that fails is not tried again. When a builder with no scope
    stored raises from [execute], it is left holding the model it was
    building, and every later call of [execute], with any scope, returns
    that model as it is, without a remote call. *)
Theorem failed_build_is_not_retried (py : python) (nova_helper : NovaHelper)
    (model_bool : ModelRoot → bool) (model_scope : audit_scope)
    (w w1 : World) (e : exn) :
  self_model_scope w = ∅ →
  execute py nova_helper model_bool model_scope w = (Raise e, w1) →
  is_Some (self_model w1) ∧
  ∀ later_scope,
    execute py nova_helper model_bool later_scope w1 = (Ok (self_model w1), w1).
Proof.
  intros Hempty Hfail.
  pose proof (stored_scope_empty_after :=
                check_model_scope_nothing_stored py model_scope w Hempty).
  rewrite execute_unfold, stored_scope_empty_after, orb_false_r in Hfail.
  case_bool_decide as Hheld; [|done].
  destruct (model_or_new_spec model_bool (self_model w) w) as (a & wa & Hnew & Hcases).
  rewrite Hnew in Hfail.
  destruct (_add_physical_layer nova_helper (set_self_model (Some a) wa))
    as [[[]|e'] w2] eqn:Hlayer; [done|].
  injection Hfail as <- <-.
  destruct (forward_add_physical_layer _ _ _ _ Hlayer) as (Hm & Hsc & _).
  simpl in Hm, Hsc.
  assert (self_model_scope w2 = ∅) as Hempty2.
  { rewrite Hsc. by destruct Hcases as [(_ & _ & ->)|(_ & _ & ->)]. }
  split; [rewrite Hm; by eexists|]. intros later_scope.
  rewrite execute_unfold, (check_model_scope_nothing_stored py _ _ Hempty2), Hm.
  by rewrite orb_false_r, bool_decide_eq_false_2.
Qed.

Lemma failed_build_is_not_retried_witness :
  let failed := execute Py2 Situations.cloud_with_spare Scenario.always_true [] init in
  failed.1 = Raise (ComputeNodeNotFound None) ∧
  execute Py2 Situations.cloud_with_spare Scenario.always_true Scenario.other_aggregate
    failed.2 = (Ok (Some 0%nat), failed.2).
Proof.
  intros failed. split; [by vm_compute|].
  destruct (failed_build_is_not_retried Py2 Situations.cloud_with_spare
              Scenario.always_true [] init failed.2 (ComputeNodeNotFound None))
    as [_ Hlater].
  - reflexivity.
  - by vm_compute.
  - rewrite Hlater. by vm_compute.
Defined.

(** ** Referential integrity of the models *)

Section Integrity.
Import NovaSpec.
Variable nova_helper : NovaHelper.

Lemma consistent_empty : consistent empty_model.
Proof. by repeat split. Qed.

Lemma consistent_add_node n m : consistent m → consistent (add_node n m).
Proof.
  intros (Hkey & Hhost & Hinst). split; [|split]; simpl.
  - intros u n'. rewrite lookup_insert. case_decide; [by intros [= <-] | apply Hkey].
  - intros i u Hmap. apply dom_insert_subseteq. by eapply Hhost.
  - done.
Qed.

Lemma consistent_add_instance i m : consistent m → consistent (add_instance i m).
Proof.
  intros (Hkey & Hhost & Hinst). split; [|split]; simpl; [done..|].
  intros j u Hmap. apply dom_insert_subseteq. by eapply Hinst.
Qed.

Lemma consistent_map_instance i n u m :
  consistent m → nodes m !! u = Some n → in_uuid i ∈ dom (instances m) →
  consistent (map_instance i n m).
Proof.
  intros (Hkey & Hhost & Hinst) Hn Hi. split; [|split]; simpl; [done|..].
  - intros j v. rewrite lookup_insert. case_decide; [|apply Hhost].
    intros [= <-]. rewrite (Hkey _ _ Hn). apply elem_of_dom. eauto.
  - intros j v. rewrite lookup_insert. case_decide; [|apply Hinst].
    intros _. by subst j.
Qed.

Global Instance keeps_sound_preorder : PreOrder keeps_sound.
Proof.
  split; [intros w H; exact H | intros w1 w2 w3 H1 H2 H; by apply H2, H1].
Qed.

Lemma keeps_sound_record_call c w : keeps_sound w (record_call c w).
Proof. by intros H. Qed.

Lemma sound_update (w w' : World) (a : addr) (m : ModelRoot) :
  sound w → consistent m → heap w' = <[a := m]> (heap w) → sound w'.
Proof.
  intros Hw Hm Hheap b. unfold deref. rewrite Hheap, lookup_total_insert.
  case_decide; [done | apply Hw].
Qed.

Lemma keeps_sound_on_model method (f : ModelRoot → ModelRoot) :
  (∀ m, consistent m → consistent (f m)) →
  preserves keeps_sound (on_model method f).
Proof.
  intros Hf w r w'. unfold on_model, gets, modify, raise, mbind, M_bind.
  destruct (self_model w) as [a|]; intros [= <- <-]; [|done].
  intros Hw. eapply sound_update; [done | apply Hf, Hw | done].
Qed.

End Integrity.

Section IntegritySteps.
Import NovaSpec.
Variable nova_helper : NovaHelper.

Local Ltac unchanged := intros [= <- <-] Hw; exact Hw.

Lemma on_model_run method (f : ModelRoot → ModelRoot) (w : World) (a : addr) :
  self_model w = Some a →
  on_model method f w = (Ok tt, set_heap (<[a := f (deref w a)]> (heap w)) w).
Proof. intros H. unfold on_model, gets, modify, mbind, M_bind. by rewrite H. Qed.

Lemma on_model_none method (f : ModelRoot → ModelRoot) (w : World) :
  self_model w = None → on_model method f w = (Raise (AttributeError method), w).
Proof. intros H. unfold on_model, gets, raise, mbind, M_bind. by rewrite H. Qed.

Lemma build_instance_node_run (inst : Server) (w : World) :
  _build_instance_node inst w =
    (match vm_state inst with
     | Present _ => Ok (instance_node inst)
     | Missing => Raise (AttributeError "OS-EXT-STS:vm_state")
     end, w).
Proof.
  unfold _build_instance_node, instance_node, getattr, mbind, M_bind.
  by destruct (vm_state inst).
Qed.

Lemma fetch_run (uuid : string) (w : World) :
  try_except
    (inst ← nova (FindInstance uuid) (find_instance nova_helper uuid); mret (Some inst))
    (λ exc, mret None) w =
  (Ok (match find_instance nova_helper uuid with
       | Ok inst => Some inst
       | Raise _ => None
       end), record_call (FindInstance uuid) w).
Proof.
  unfold try_except, nova, remote, mbind, M_bind.
  by destruct (find_instance nova_helper uuid).
Qed.

(** Mapping an instance that is in the model to the host found under a uuid
    keeps the models consistent, whether the host is found or not. *)
Lemma map_to_host_sound (i : Instance) (host : option string) (w w' : World) r :
  (compute_node ← model_get_node_by_uuid host;
   on_model "map_instance" (map_instance i compute_node)) w = (r, w') →
  (∀ a, self_model w = Some a → in_uuid i ∈ dom (instances (deref w a))) →
  sound w → sound w'.
Proof.
  unfold model_get_node_by_uuid, gets, reads, raise, mbind at 1 2, M_bind at 1 2.
  destruct (self_model w) as [a|] eqn:Hmodel; [|by intros [= <- <-]].
  destruct (get_node_by_uuid host (deref w a)) as [n|e] eqn:Hnode; [|by intros [= <- <-]].
  rewrite (on_model_run _ _ _ _ Hmodel). intros [= <- <-] Hi Hw.
  unfold get_node_by_uuid in Hnode. destruct host as [u|]; simpl in Hnode; [|done].
  destruct (nodes (deref w a) !! u) as [n'|] eqn:Hu; [|done]. injection Hnode as ->.
  eapply sound_update; [exact Hw | | reflexivity].
  eapply consistent_map_instance; [apply Hw | exact Hu | by apply Hi].
Qed.

Lemma added_instance_present (i : Instance) (w : World) (a : addr) :
  ∀ b, self_model (set_heap (<[a := add_instance i (deref w a)]> (heap w)) w) = Some b →
       self_model w = Some a →
       in_uuid i ∈ dom (instances
                          (deref (set_heap (<[a := add_instance i (deref w a)]> (heap w)) w) b)).
Proof.
  intros b Hb Ha. simpl in Hb. rewrite Ha in Hb. injection Hb as <-.
  rewrite deref_set_heap, decide_True by done. simpl.
  rewrite dom_insert_L. apply elem_of_union_l, elem_of_singleton. reflexivity.
Qed.

Lemma keeps_sound_add_listed_instance uuid :
  preserves keeps_sound (add_listed_instance nova_helper uuid).
Proof.
  intros w r w'. unfold add_listed_instance.
  rewrite (bind_ok _ _ _ _ _ (fetch_run uuid w)).
  set (w0 := record_call (FindInstance uuid) w).
  destruct (find_instance nova_helper uuid) as [inst|e]; [|unchanged].
  rewrite (bind_ok_or_raise _ _ _ _ (build_instance_node_run inst w0)).
  destruct (vm_state inst) as [|state]; [unchanged|].
  destruct (self_model w0) as [a|] eqn:Hmodel.
  2:{ rewrite (bind_raise _ _ _ _ _ (on_model_none _ _ _ Hmodel)). unchanged. }
  rewrite (bind_ok _ _ _ _ _ (on_model_run _ _ _ _ Hmodel)).
  set (w1 := set_heap _ w0).
  assert (sound w → sound w1) as Hw1.
  { intros Hw. eapply sound_update; [exact Hw | apply consistent_add_instance, Hw | done]. }
  unfold getattr. destruct (srv_host inst) as [|host].
  { intros [= <- <-]. exact Hw1. }
  rewrite (bind_ok _ _ w1 host w1 eq_refl).
  intros Hrun Hw. eapply map_to_host_sound; [exact Hrun | | by apply Hw1].
  intros b Hb. by apply added_instance_present.
Qed.

End IntegritySteps.

Section IntegrityOfBuilds.
Import NovaSpec.
Variable py : python.
Variable nova_helper : NovaHelper.
Variable model_bool : ModelRoot → bool.

Local Ltac unchanged := intros [= <- <-] Hw; exact Hw.
Local Ltac closure lem := apply lem; try apply _; try apply keeps_sound_record_call.

Lemma keeps_sound_add_virtual_server inst :
  preserves keeps_sound (add_virtual_server inst).
Proof.
  intros w r w'. unfold add_virtual_server.
  rewrite (bind_ok_or_raise _ _ _ _ (build_instance_node_run inst w)).
  destruct (vm_state inst) as [|state]; [unchanged|].
  destruct (self_model w) as [a|] eqn:Hmodel.
  2:{ rewrite (bind_raise _ _ _ _ _ (on_model_none _ _ _ Hmodel)). unchanged. }
  rewrite (bind_ok _ _ _ _ _ (on_model_run _ _ _ _ Hmodel)).
  set (w1 := set_heap _ w).
  assert (sound w → sound w1) as Hw1.
  { intros Hw. eapply sound_update; [exact Hw | apply consistent_add_instance, Hw | done]. }
  unfold getattr. destruct (srv_host inst) as [|host].
  { intros [= <- <-]. exact Hw1. }
  rewrite (bind_ok _ _ w1 host w1 eq_refl).
  destruct host as [u|]; [|intros [= <- <-]; exact Hw1].
  unfold try_except.
  destruct ((compute_node ← model_get_node_by_uuid (Some u);
             on_model "map_instance" (map_instance (instance_node inst) compute_node)) w1)
    as [[[]|e] w2] eqn:Hmap.
  - intros [= <- <-] Hw. eapply map_to_host_sound; [exact Hmap | | by apply Hw1].
    intros b Hb. by apply added_instance_present.
  - intros Hhandler Hw.
    assert (sound w2) as Hw2.
    { eapply map_to_host_sound; [exact Hmap | | by apply Hw1].
      intros b Hb. by apply added_instance_present. }
    by destruct e; injection Hhandler as <- <-.
Qed.

Lemma keeps_sound_add_virtual_servers :
  preserves keeps_sound (_add_virtual_servers nova_helper).
Proof.
  unfold _add_virtual_servers. closure @preserves_bind; [closure @preserves_nova|].
  intros insts. closure @preserves_for_each. apply keeps_sound_add_virtual_server.
Qed.

Lemma keeps_sound_add_physical_layer :
  preserves keeps_sound (_add_physical_layer nova_helper).
Proof.
  unfold _add_physical_layer. closure @preserves_bind.
  { closure @preserves_compute_nodes_of_scope. }
  intros X. closure @preserves_for_each. intros name.
  unfold add_physical_node. closure @preserves_bind; [closure @preserves_nova|].
  intros [|node others]; [closure @preserves_ret|].
  closure @preserves_bind.
  - unfold add_compute_node. closure @preserves_bind; [closure @preserves_nova|].
    intros info. apply keeps_sound_on_model, consistent_add_node.
  - intros _. unfold add_instance_node.
    destruct (hv_servers node); [|closure @preserves_ret].
    closure @preserves_for_each. apply keeps_sound_add_listed_instance.
Qed.

Lemma keeps_sound_execute (model_scope : audit_scope) :
  preserves keeps_sound (execute py nova_helper model_bool model_scope).
Proof.
  intros w r w'. rewrite execute_unfold.
  destruct (_check_model_scope py model_scope w) as [[flag|e] w0] eqn:Hcheck.
  2:{ intros [= <- <-] Hw.
      by destruct (check_model_scope_after _ _ _ _ _ Hcheck) as [->| ->]. }
  assert (sound w → sound w0) as Hw0.
  { intros Hw. by destruct (check_model_scope_after _ _ _ _ _ Hcheck) as [->| ->]. }
  destruct (bool_decide (self_model w0 = None) || flag); [|by intros [= <- <-]].
  destruct (model_or_new_spec model_bool (self_model w0) w0) as (a & w1 & Hnew & Hcases).
  rewrite Hnew.
  assert (sound w → sound (set_self_model (Some a) w1)) as Hw1.
  { intros Hw. destruct Hcases as [(_ & _ & ->)|(_ & _ & ->)]; [by apply Hw0|].
    eapply sound_update; [by apply Hw0 | apply consistent_empty | done]. }
  destruct (_add_physical_layer nova_helper (set_self_model (Some a) w1))
    as [[[]|e] w2] eqn:Hlayer; intros [= <- <-] Hw;
    by apply (keeps_sound_add_physical_layer _ _ _ Hlayer), Hw1.
Qed.

End IntegrityOfBuilds.

(** X11. Referential integrity. Call a model consistent when every host is
    kept under its own uuid and every pair of the relation maps an instance
    of the model to a host of the model. If every model object is consistent
    before [execute], every one is after it, whether it returns or raises;
    the same holds for [_add_virtual_servers]. *)
Theorem builds_keep_models_consistent (py : python) (nova_helper : NovaHelper)
    (model_bool : ModelRoot → bool) (model_scope : audit_scope) (w : World) :
  NovaSpec.sound w →
  NovaSpec.sound (execute py nova_helper model_bool model_scope w).2 ∧
  NovaSpec.sound (_add_virtual_servers nova_helper w).2.
Proof.
  intros Hw. split.
  - destruct (execute py nova_helper model_bool model_scope w) as [r w'] eqn:Hrun.
    by apply (keeps_sound_execute _ _ _ _ _ _ _ Hrun).
  - destruct (_add_virtual_servers nova_helper w) as [r w'] eqn:Hrun.
    by apply (keeps_sound_add_virtual_servers _ _ _ _ Hrun).
Qed.

Lemma builds_keep_models_consistent_witness :
  NovaSpec.sound (execute Py2 Situations.cloud_with_spare Scenario.always_true [] init).2.
Proof.
  apply (builds_keep_models_consistent Py2 Situations.cloud_with_spare
           Scenario.always_true [] init).
  intros a. exact consistent_empty.
Defined.

(** ** Adding hosts and instances *)

(** X12. Adding a compute node and looking it up. [add_compute_node] uses
    the node it is given for its id only: when the detail fetch by that id
    answers, the host is stored under the service host of the record
    fetched, where [get_node_by_uuid] finds it at once; the other hosts, the
    instances and the relation are as before. *)
Theorem add_compute_node_then_lookup (nova_helper : NovaHelper) (node info : Hypervisor)
    (w : World) (a : addr) :
  self_model w = Some a →
  get_compute_node_by_id nova_helper (hv_id node) = Ok info →
  ∃ w', add_compute_node nova_helper node w = (Ok tt, w') ∧
        model_get_node_by_uuid (Some (hv_service_host info)) w' =
          (Ok (build_compute_node info), w') ∧
        (∀ u, u ≠ hv_service_host info →
              nodes (deref w' a) !! u = nodes (deref w a) !! u) ∧
        instances (deref w' a) = instances (deref w a) ∧
        mapping (deref w' a) = mapping (deref w a).
Proof.
  intros Hmodel Hinfo. eexists. split.
  { unfold add_compute_node, nova, remote.
    rewrite (bind_ok _ _ w info (record_call (GetComputeNodeById (hv_id node)) w))
      by by rewrite Hinfo.
    by apply on_model_run. }
  set (w' := set_heap _ _).
  assert (deref w' a = add_node (build_compute_node info) (deref w a)) as Hderef.
  { unfold w'. by rewrite deref_set_heap, decide_True. }
  split; [|split; [|split]].
  - unfold model_get_node_by_uuid, gets, reads, mbind, M_bind. simpl. rewrite Hmodel.
    fold w'. rewrite Hderef. unfold get_node_by_uuid. simpl.
    by rewrite lookup_insert_eq.
  - intros u Hu. rewrite Hderef. simpl. by apply lookup_insert_ne.
  - by rewrite Hderef.
  - by rewrite Hderef.
Qed.

Lemma add_compute_node_then_lookup_witness :
  ∃ w', add_compute_node Scenario.cloud Scenario.h1 Scenario.building = (Ok tt, w') ∧
        model_get_node_by_uuid (Some "h1") w' = (Ok (build_compute_node Scenario.h1), w').
Proof.
  destruct (add_compute_node_then_lookup Scenario.cloud Scenario.h1 Scenario.h1
              Scenario.building 0%nat eq_refl eq_refl) as (w' & Hadd & Hget & _).
  by exists w'.
Defined.

(** X13. Instances that cannot be fetched leave no trace. When a node lists
    no server, or the fetch of every server it lists raises, whatever the
    exception, [add_instance_node] returns normally and changes nothing but
    the log of remote calls. *)
Theorem lost_instances_are_skipped (nova_helper : NovaHelper) (node : Hypervisor)
    (w : World) :
  found_instances nova_helper node = [] →
  ∃ w', add_instance_node nova_helper node w = (Ok tt, w') ∧ untouched w w'.
Proof.
  unfold add_instance_node, found_instances.
  destruct (hv_servers node) as [refs|]; [|by exists w].
  revert w. induction refs as [|s refs IH]; intros w Hnone; [by exists w|].
  simpl in Hnone.
  destruct (find_instance nova_helper (ref_uuid s)) as [inst|e] eqn:Hfind; [done|].
  destruct (IH (record_call (FindInstance (ref_uuid s)) w) Hnone) as (w' & Hrun & Hsame).
  exists w'. split; [|exact Hsame].
  simpl. by rewrite (bind_ok _ _ _ _ _ (add_listed_instance_lost _ _ _ _ Hfind)).
Qed.

Lemma lost_instances_are_skipped_witness :
  ∃ w', add_instance_node Scenario.cloud (Scenario.hypervisor 5 "h5" ["i7"; "i8"])
          Scenario.building = (Ok tt, w') ∧
        heap w' = heap Scenario.building.
Proof.
  destruct (lost_instances_are_skipped Scenario.cloud
              (Scenario.hypervisor 5 "h5" ["i7"; "i8"]) Scenario.building eq_refl)
    as (w' & Hrun & _ & _ & Hheap).
  by exists w'.
Defined.

Section VirtualServers.
Import NovaSpec.
Variable nova_helper : NovaHelper.

Lemma add_virtual_server_run (inst : Server) (w : World) (a : addr) :
  vm_state inst ≠ Missing → srv_host inst ≠ Missing → self_model w = Some a →
  ∃ w', add_virtual_server inst w = (Ok tt, w') ∧
        self_model w' = Some a ∧
        deref w' a = virtual_server (deref w a) inst.
Proof.
  intros Hstate Hhost Hmodel. unfold add_virtual_server, virtual_server.
  rewrite (bind_ok_or_raise _ _ _ _ (build_instance_node_run inst w)).
  destruct (vm_state inst) as [|state] eqn:Estate; [done|].
  rewrite (bind_ok _ _ _ _ _ (on_model_run _ _ _ _ Hmodel)).
  set (w1 := set_heap _ w).
  assert (deref w1 a = add_instance (instance_node inst) (deref w a)) as Hd1.
  { unfold w1. by rewrite deref_set_heap, decide_True. }
  unfold getattr. destruct (srv_host inst) as [|host]; [done|].
  rewrite (bind_ok _ _ w1 host w1 eq_refl).
  destruct host as [u|]; [|by exists w1].
  unfold try_except, model_get_node_by_uuid, gets, reads, raise, mbind at 1 2, M_bind at 1 2.
  change (self_model w1) with (self_model w). rewrite Hmodel.
  unfold get_node_by_uuid. simpl. rewrite Hd1. simpl.
  destruct (nodes (deref w a) !! u) as [n|] eqn:Hu.
  - rewrite (on_model_run _ _ w1 a Hmodel). eexists. split; [reflexivity|].
    split; [exact Hmodel|].
    rewrite deref_set_heap, decide_True by done. by rewrite Hd1.
  - by exists w1.
Qed.

Lemma add_virtual_servers_run (insts : list Server) (w : World) (a : addr) :
  Forall (λ inst, vm_state inst ≠ Missing ∧ srv_host inst ≠ Missing) insts →
  self_model w = Some a →
  ∃ w', for_each insts add_virtual_server w = (Ok tt, w') ∧
        self_model w' = Some a ∧
        deref w' a = foldl virtual_server (deref w a) insts.
Proof.
  intros Hall. revert w. induction Hall as [|inst insts [Hst Hho] _ IH]; intros w Hmodel.
  { by exists w. }
  destruct (add_virtual_server_run inst w a Hst Hho Hmodel) as (w1 & Hstep & Hm1 & Hd1).
  destruct (IH w1 Hm1) as (w' & Hrest & Hm' & Hd').
  exists w'. split; [|split; [done|]].
  - simpl. by rewrite (bind_ok _ _ _ _ _ Hstep).
  - simpl. by rewrite <- Hd1.
Qed.

Lemma virtual_server_nodes m inst : nodes (virtual_server m inst) = nodes m.
Proof.
  unfold virtual_server. destruct (srv_host inst) as [|[u|]]; [done| |done].
  by destruct (nodes m !! u).
Qed.

Lemma virtual_server_instances m inst :
  instances (virtual_server m inst) = <[srv_id inst := instance_node inst]> (instances m).
Proof.
  unfold virtual_server. destruct (srv_host inst) as [|[u|]]; [done| |done].
  by destruct (nodes m !! u).
Qed.

Lemma virtual_server_mapping m inst i v :
  mapping (virtual_server m inst) !! i = Some v →
  mapping m !! i = Some v ∨
  ∃ u n, srv_id inst = i ∧ srv_host inst = Present (Some u) ∧
         nodes m !! u = Some n ∧ v = cn_uuid n.
Proof.
  unfold virtual_server. destruct (srv_host inst) as [|[u|]]; [by left| |by left].
  destruct (nodes m !! u) as [n|] eqn:Hu; [|by left]. simpl.
  rewrite lookup_insert. case_decide; [|by left].
  intros [= <-]. right. by exists u, n.
Qed.

Lemma virtual_servers_nodes insts m : nodes (foldl virtual_server m insts) = nodes m.
Proof.
  revert m. induction insts as [|inst insts IH]; intros m; [done|].
  simpl. by rewrite IH, virtual_server_nodes.
Qed.

Lemma virtual_servers_instances insts m :
  dom (instances (foldl virtual_server m insts)) =
    dom (instances m) ∪ list_to_set (srv_id <$> insts).
Proof.
  revert m. induction insts as [|inst insts IH]; intros m.
  - simpl. by rewrite (right_id_L ∅ (∪)).
  - simpl foldl. rewrite IH, virtual_server_instances, dom_insert_L, fmap_cons,
      list_to_set_cons.
    by rewrite (assoc_L (∪)), (comm_L (∪) {[srv_id inst]}).
Qed.

Lemma virtual_servers_mapping insts m i v :
  mapping (foldl virtual_server m insts) !! i = Some v →
  mapping m !! i = Some v ∨
  ∃ inst u n, inst ∈ insts ∧ srv_id inst = i ∧ srv_host inst = Present (Some u) ∧
              nodes m !! u = Some n ∧ v = cn_uuid n.
Proof.
  revert m. induction insts as [|inst insts IH]; intros m; [by left|].
  simpl. intros [Hm|(inst' & u & n & Hin & ? & ? & Hn & ?)]%IH.
  - apply virtual_server_mapping in Hm as [?|(u & n & ? & ? & ? & ?)]; [by left|].
    right. exists inst, u, n. split; [by left | done].
  - rewrite virtual_server_nodes in Hn. right. exists inst', u, n.
    split; [by right | done].
Qed.

End VirtualServers.

(** X14. [_add_virtual_servers] does not fail on the state of the cluster.
    When the list of instances is fetched and every record has its state and
    its host attribute (the host may be [None]), it returns normally: no
    host is added or changed, every instance of the list is in the model,
    and a pair is added to the relation only for an instance whose record
    names a host that is in the model. *)
Theorem virtual_servers_tolerate_unknown_hosts (nova_helper : NovaHelper)
    (insts : list Server) (w : World) (a : addr) :
  self_model w = Some a →
  get_instance_list nova_helper = Ok insts →
  Forall (λ inst, vm_state inst ≠ Missing ∧ srv_host inst ≠ Missing) insts →
  ∃ w', _add_virtual_servers nova_helper w = (Ok tt, w') ∧
    let before := deref w a in
    let built := deref w' a in
    nodes built = nodes before ∧
    dom (instances built) = dom (instances before) ∪ list_to_set (srv_id <$> insts) ∧
    ∀ i v, mapping built !! i = Some v →
           mapping before !! i = Some v ∨
           ∃ inst u n, inst ∈ insts ∧ srv_id inst = i ∧
                       srv_host inst = Present (Some u) ∧
                       nodes before !! u = Some n ∧ v = cn_uuid n.
Proof.
  intros Hmodel Hlist Hall.
  destruct (add_virtual_servers_run insts (record_call GetInstanceList w) a Hall Hmodel)
    as (w' & Hrun & _ & Hderef).
  exists w'. split.
  { unfold _add_virtual_servers, nova, remote.
    by rewrite (bind_ok _ _ w insts (record_call GetInstanceList w)) by by rewrite Hlist. }
  cbv zeta. change (deref (record_call GetInstanceList w) a) with (deref w a) in Hderef.
  rewrite Hderef. split; [apply virtual_servers_nodes|].
  split; [apply virtual_servers_instances | apply virtual_servers_mapping].
Qed.

Lemma virtual_servers_tolerate_unknown_hosts_witness :
  ∃ w', _add_virtual_servers Scenario.cloud Scenario.building = (Ok tt, w') ∧
        nodes (deref w' 0%nat) = ∅ ∧
        dom (instances (deref w' 0%nat)) = {[ "i0"; "i1" ]}.
Proof.
  destruct (virtual_servers_tolerate_unknown_hosts Scenario.cloud
              [Scenario.server "i0" None; Scenario.server "i1" (Some "h1")]
              Scenario.building 0%nat eq_refl eq_refl)
    as (w' & Hrun & Hnodes & Hinstances & _).
  - repeat constructor; done.
  - exists w'. split; [done|]. split; [by rewrite Hnodes|].
    rewrite Hinstances. by vm_compute.
Defined.

(** ** The collector *)

(** X15. The collector builds the same model whatever the audit scope. With
    a handler set and a scope stored, [execute] makes a new builder, which
    has no scope stored, so the scope is ignored: the outcome is that of
    building with the empty scope. When it returns, the model is a new
    object, and the model objects that existed are as they were. *)
Theorem collector_builds_unscoped (py : python) (nova_helper : NovaHelper)
    (model_bool : ModelRoot → bool) (c : Collector.State)
    (handler model_scope : audit_scope) (w : World) :
  Collector._audit_scope_handler c = Some handler →
  Collector._data_model_scope c = Some model_scope →
  Collector.execute py nova_helper model_bool c w =
    execute py nova_helper model_bool [] (Collector.new_builder w) ∧
  ∀ returned w',
    Collector.execute py nova_helper model_bool c w = (Ok returned, w') →
    ∃ b, returned = Some b ∧ (b ∉ dom (heap w)) ∧
         ∀ other, other ≠ b → heap w' !! other = heap w !! other.
Proof.
  intros Hhandler Hscope.
  assert (Collector.execute py nova_helper model_bool c w =
            execute py nova_helper model_bool [] (Collector.new_builder w)) as Heq.
  { unfold Collector.execute. rewrite Hhandler, Hscope.
    unfold modify, mbind at 1, M_bind at 1.
    rewrite !execute_unfold.
    by rewrite !(check_model_scope_nothing_stored py _ (Collector.new_builder w) eq_refl). }
  split; [exact Heq|]. intros returned w'. rewrite Heq, execute_unfold.
  rewrite (check_model_scope_nothing_stored py _ (Collector.new_builder w) eq_refl).
  change (self_model (Collector.new_builder w)) with (@None addr).
  rewrite bool_decide_eq_true_2 by done. cbv [orb].
  destruct (model_or_new_spec model_bool None (Collector.new_builder w))
    as (b & wb & Hnew & Hcases).
  rewrite Hnew.
  destruct Hcases as [(? & _)|(_ & Hfresh & ->)]; [done|].
  destruct (_add_physical_layer nova_helper _) as [[[]|e] w2] eqn:Hlayer; [|done].
  intros [= <- <-].
  destruct (forward_add_physical_layer _ _ _ _ Hlayer) as (Hm & _ & _ & Hothers).
  simpl in Hm, Hothers. exists b. split; [done|]. split; [exact Hfresh|].
  intros other Hother. rewrite Hothers by congruence.
  by apply lookup_insert_ne.
Qed.

Lemma collector_builds_unscoped_witness :
  Collector.execute Py2 Scenario.cloud Scenario.always_true
    {| Collector._audit_scope_handler := Some Scenario.other_aggregate;
       Collector._data_model_scope := Some Scenario.other_aggregate;
       Collector._cluster_data_model := None |} Scenario.holding =
  execute Py2 Scenario.cloud Scenario.always_true [] (Collector.new_builder Scenario.holding).
Proof.
  by apply (collector_builds_unscoped Py2 Scenario.cloud Scenario.always_true _
              Scenario.other_aggregate Scenario.other_aggregate Scenario.holding).
Defined.

Section CollectorScope.
Import Collector.

Lemma handler_after (audit_scope : Nova.audit_scope) (c : State) :
  _audit_scope_handler (get_audit_scope_handler audit_scope c).2 = Some audit_scope.
Proof.
  unfold get_audit_scope_handler. simpl. by destruct (scope_changed _ _).
Qed.

Lemma as_dicts_nil (scope : Nova.audit_scope) : as_dicts scope = as_dicts [] → scope = [].
Proof. by destruct scope. Qed.

Lemma scope_after (audit_scope : Nova.audit_scope) (c : State) :
  let c' := (get_audit_scope_handler audit_scope c).2 in
  match _data_model_scope c with
  | Some [] => _data_model_scope c' = Some [] ∧ _cluster_data_model c' = _cluster_data_model c
  | Some stored =>
      if bool_decide (as_dicts stored = as_dicts audit_scope)
      then _data_model_scope c' = Some stored ∧
           _cluster_data_model c' = _cluster_data_model c
      else _data_model_scope c' = Some audit_scope ∧ _cluster_data_model c' = None
  | None => _data_model_scope c' = Some audit_scope ∧ _cluster_data_model c' = None
  end.
Proof.
  unfold get_audit_scope_handler, scope_changed. simpl.
  destruct (_data_model_scope c) as [[|x stored]|] eqn:E; simpl; [done| |done].
  destruct (decide (as_dicts (x :: stored) = as_dicts audit_scope)) as [Heq|Hne].
  - rewrite (bool_decide_eq_true_2 _ Heq).
    rewrite bool_decide_eq_false_2 by (by intros H; apply H).
    done.
  - rewrite (bool_decide_eq_false_2 _ Hne), bool_decide_eq_true_2 by done. done.
Qed.

(** A request for the scope that the last request was for changes neither
    the stored scope nor the cached model. *)
Lemma scope_settled (audit_scope : Nova.audit_scope) (c : State) :
  let once := (get_audit_scope_handler audit_scope c).2 in
  let twice := (get_audit_scope_handler audit_scope once).2 in
  _data_model_scope twice = _data_model_scope once ∧
  _cluster_data_model twice = _cluster_data_model once.
Proof.
  cbv zeta.
  pose proof (scope_after audit_scope c) as H1. cbv zeta in H1.
  set (c1 := (get_audit_scope_handler audit_scope c).2) in *.
  pose proof (scope_after audit_scope c1) as H2. cbv zeta in H2.
  set (c2 := (get_audit_scope_handler audit_scope c1).2) in *.
  assert (∀ stored, _data_model_scope c1 = Some stored →
                    as_dicts stored = as_dicts audit_scope →
                    _data_model_scope c2 = Some stored ∧
                    _cluster_data_model c2 = _cluster_data_model c1) as Hsame.
  { intros stored Hs Heq. rewrite Hs in H2. destruct stored as [|x stored]; [done|].
    by rewrite (bool_decide_eq_true_2 _ Heq) in H2. }
  destruct (_data_model_scope c) as [[|x stored]|].
  - destruct H1 as [Hs1 Hm1]. rewrite Hs1 in H2 |- *. done.
  - destruct (decide (as_dicts (x :: stored) = as_dicts audit_scope)) as [Heq|Hne].
    + rewrite (bool_decide_eq_true_2 _ Heq) in H1. destruct H1 as [Hs1 _].
      destruct (Hsame _ Hs1 Heq) as [-> ->]. by rewrite Hs1.
    + rewrite (bool_decide_eq_false_2 _ Hne) in H1. destruct H1 as [Hs1 _].
      destruct (Hsame _ Hs1 eq_refl) as [-> ->]. by rewrite Hs1.
  - destruct H1 as [Hs1 _]. destruct (Hsame _ Hs1 eq_refl) as [-> ->]. by rewrite Hs1.
Qed.

End CollectorScope.

(** X16. An empty stored scope is never replaced. Once the collector has
    stored the empty list as its data model scope, any sequence of calls of
    [get_audit_scope_handler], with any scopes, leaves that scope and the
    cached model as they are: the cache is not invalidated again. *)
Theorem empty_stored_scope_is_kept (scopes : list audit_scope) (c : Collector.State) :
  Collector._data_model_scope c = Some [] →
  let c' := foldl (λ c audit_scope, (Collector.get_audit_scope_handler audit_scope c).2)
              c scopes in
  Collector._data_model_scope c' = Some [] ∧
  Collector._cluster_data_model c' = Collector._cluster_data_model c.
Proof.
  revert c. induction scopes as [|audit_scope scopes IH]; intros c Hempty; [done|].
  pose proof (scope_after audit_scope c) as Hstep. cbv zeta in Hstep.
  rewrite Hempty in Hstep. destruct Hstep as [Hscope Hmodel].
  destruct (IH _ Hscope) as [IH1 IH2]. cbv zeta in *.
  split; [exact IH1 | by rewrite <- Hmodel].
Qed.

Lemma empty_stored_scope_is_kept_witness :
  let c := {| Collector._audit_scope_handler := None;
              Collector._data_model_scope := Some [];
              Collector._cluster_data_model := Some 0%nat |} in
  let c' := (Collector.get_audit_scope_handler Scenario.other_aggregate c).2 in
  Collector._data_model_scope c' = Some [] ∧
  Collector._cluster_data_model c' = Some 0%nat.
Proof.
  intros c.
  exact (empty_stored_scope_is_kept [Scenario.other_aggregate] c eq_refl).
Defined.

(** X17. A second request for the handler of the same scope changes neither
    the stored scope nor the cached model. Unless the stored scope is the
    empty list, the scope stored after a request is equal to the one asked
    for as Python compares them, the keys of a dict in any order; the cached
    model is kept when the scope stored before was equal to it in that sense,
    in which case the scope stored before stays, and is reset otherwise. *)
Theorem get_audit_scope_handler_settles (audit_scope : audit_scope) (c : Collector.State) :
  let once := (Collector.get_audit_scope_handler audit_scope c).2 in
  let twice := (Collector.get_audit_scope_handler audit_scope once).2 in
  (Collector._data_model_scope twice = Collector._data_model_scope once ∧
   Collector._cluster_data_model twice = Collector._cluster_data_model once) ∧
  (Collector._data_model_scope c ≠ Some [] →
   ∃ stored,
     Collector._data_model_scope once = Some stored ∧
     Collector.as_dicts stored = Collector.as_dicts audit_scope ∧
     match Collector._data_model_scope c with
     | Some before =>
         if bool_decide (Collector.as_dicts before = Collector.as_dicts audit_scope)
         then stored = before ∧
              Collector._cluster_data_model once = Collector._cluster_data_model c
         else stored = audit_scope ∧ Collector._cluster_data_model once = None
     | None => stored = audit_scope ∧ Collector._cluster_data_model once = None
     end).
Proof.
  cbv zeta. split; [apply scope_settled|].
  intros Hne. pose proof (scope_after audit_scope c) as H1. cbv zeta in H1.
  destruct (Collector._data_model_scope c) as [[|x before]|]; [done| |].
  - destruct (decide (Collector.as_dicts (x :: before) = Collector.as_dicts audit_scope))
      as [Heq|Hdiff].
    + rewrite (bool_decide_eq_true_2 _ Heq) in H1 |- *. destruct H1 as [Hs Hm].
      exists (x :: before). by rewrite Hs, Hm.
    + rewrite (bool_decide_eq_false_2 _ Hdiff) in H1 |- *. destruct H1 as [Hs Hm].
      exists audit_scope. by rewrite Hs, Hm.
  - destruct H1 as [Hs Hm]. exists audit_scope. by rewrite Hs, Hm.
Qed.

(** The collector stores a scope whose role has the key [host_aggregates]
    first and is asked for the same scope with [availability_zones] first:
    the cached model is kept, and so is the scope stored. *)
Lemma get_audit_scope_handler_settles_witness :
  let c := {| Collector._audit_scope_handler := None;
              Collector._data_model_scope := Some Situations.aggregates_then_zones;
              Collector._cluster_data_model := Some 0%nat |} in
  let once := (Collector.get_audit_scope_handler Situations.zones_then_aggregates c).2 in
  Situations.aggregates_then_zones ≠ Situations.zones_then_aggregates ∧
  Collector._data_model_scope once = Some Situations.aggregates_then_zones ∧
  Collector._cluster_data_model once = Some 0%nat.
Proof.
  intros c once. split; [done|].
  destruct (get_audit_scope_handler_settles Situations.zones_then_aggregates c) as [_ H].
  destruct H as (stored & Hs & _ & Hkept); [done|].
  change (Collector._data_model_scope c) with (Some Situations.aggregates_then_zones) in Hkept.
  cbv beta iota in Hkept.
  rewrite bool_decide_eq_true_2 in Hkept by (by vm_compute).
  destruct Hkept as [-> Hm]. split; [exact Hs | exact Hm].
Defined.

(** ** Keystone helper: creating and deleting users *)

Section AccountFacts.
Import Keystone Accounts.
Variable keystone : Client.
Variable writes : Writes.

Lemma asking_run {A} (m : M Keystone.log A) (l : list event) :
  asking m l = ((m []).1, l ++ (Asked <$> (m []).2)).
Proof. unfold asking. by destruct (m []). Qed.

Lemma writes_of_app (l1 l2 : list event) : writes_of (l1 ++ l2) = writes_of l1 ++ writes_of l2.
Proof. apply filter_app. Qed.

Lemma writes_of_asked (cs : list Keystone.call) : writes_of (Asked <$> cs) = [].
Proof.
  induction cs as [|c cs IH]; [done|].
  rewrite fmap_cons. unfold writes_of in *. by rewrite filter_cons_False by (by intros ?).
Qed.

Lemma writes_after_asking {A} (m : M Keystone.log A) (l : list event) :
  writes_of (asking m l).2 = writes_of l.
Proof.
  rewrite asking_run. simpl. by rewrite writes_of_app, writes_of_asked, (right_id_L [] (++)).
Qed.

(** The loop that grants the roles, as far as the roles resolve and the
    grants succeed. *)
Lemma grants_run (found : string → Entity) (created project : Entity)
    (granted : list string) (l : list event) (rest : list string) :
  (∀ x, x ∈ granted →
        (get_role keystone x []).1 = Ok (found x) ∧
        roles_grant writes (ent_id (found x)) (ent_id created) (ent_id project) = Ok tt) →
  ∃ l', writes_of l' =
          writes_of l ++
          ((λ x, Granted (ent_id (found x)) (ent_id created) (ent_id project)) <$> granted) ∧
        for_each (granted ++ rest) (λ role,
          role ← asking (get_role keystone role);
          remote record_event
            (Granted (ent_id role) (ent_id created) (ent_id project))
            (roles_grant writes (ent_id role) (ent_id created) (ent_id project))) l =
        for_each rest (λ role,
          role ← asking (get_role keystone role);
          remote record_event
            (Granted (ent_id role) (ent_id created) (ent_id project))
            (roles_grant writes (ent_id role) (ent_id created) (ent_id project))) l'.
Proof.
  revert l. induction granted as [|x granted IH]; intros l Hall.
  { exists l. split; [|done]. simpl. by rewrite (right_id_L [] (++)). }
  destruct (Hall x) as [Hrole Hgrant]; [by left|].
  set (l1 := (l ++ (Asked <$> (get_role keystone x []).2)) ++
             [Granted (ent_id (found x)) (ent_id created) (ent_id project)]).
  destruct (IH l1) as (l' & Hwrites & Hrun).
  { intros y Hy. apply Hall. by right. }
  exists l'. split.
  - rewrite Hwrites. unfold l1.
    rewrite !writes_of_app, writes_of_asked, (right_id_L [] (++)), fmap_cons.
    rewrite <- (assoc_L (++)). f_equal.
  - rewrite <- Hrun. simpl.
    assert ((role ← asking (get_role keystone x);
             remote record_event
               (Granted (ent_id role) (ent_id created) (ent_id project))
               (roles_grant writes (ent_id role) (ent_id created) (ent_id project))) l =
            (Ok tt, l1)) as Hbody.
    { unfold mbind, M_bind. rewrite asking_run, Hrole. simpl.
      unfold remote, record_event. by rewrite Hgrant. }
    by rewrite (bind_ok _ _ _ _ _ Hbody).
Qed.

End AccountFacts.

Section CreateUser.
Import Keystone Accounts.
Variable keystone : Client.
Variable writes : Writes.

(** [create_user] up to the loop over the roles: the two lookups and the
    creation. *)
Lemma create_user_start (user : NewUser) (project domain created : Entity) (l : list event) :
  (get_project keystone (nu_project user) []).1 = Ok project →
  (get_domain keystone (nu_domain user) []).1 = Ok domain →
  users_create writes (nu_name user) (nu_password user) domain project = Ok created →
  ∃ l3, writes_of l3 =
          writes_of l ++ [Created (nu_name user) (nu_password user) domain project] ∧
        create_user keystone writes user l =
          (for_each (nu_roles user) (λ role,
             role ← asking (get_role keystone role);
             remote record_event
               (Granted (ent_id role) (ent_id created) (ent_id project))
               (roles_grant writes (ent_id role) (ent_id created) (ent_id project)));;
           mret created) l3.
Proof.
  intros Hproject Hdomain Hcreate.
  set (l1 := l ++ (Asked <$> (get_project keystone (nu_project user) []).2)).
  set (l2 := l1 ++ (Asked <$> (get_domain keystone (nu_domain user) []).2)).
  exists (l2 ++ [Created (nu_name user) (nu_password user) domain project]). split.
  - unfold l2, l1. by rewrite !writes_of_app, !writes_of_asked, !(right_id_L [] (++)).
  - unfold create_user.
    rewrite (bind_ok _ _ l project l1) by (by rewrite asking_run, Hproject).
    rewrite (bind_ok _ _ l1 domain l2) by (by rewrite asking_run, Hdomain).
    rewrite (bind_ok _ _ l2 created
               (l2 ++ [Created (nu_name user) (nu_password user) domain project]));
      [done|]. unfold remote, record_event. by rewrite Hcreate.
Qed.

End CreateUser.

(** X18. Creating a user whose project, domain and roles all resolve and
    whose writes all succeed returns the user created, and changes the
    identity service by one creation followed by one grant for each role,
    in the order of the roles. *)
Theorem create_user_grants_every_role (keystone : Keystone.Client)
    (writes : Accounts.Writes) (user : Accounts.NewUser)
    (project domain created : Keystone.Entity) (found : string → Keystone.Entity)
    (l : list Accounts.event) :
  (Keystone.get_project keystone (Accounts.nu_project user) []).1 = Ok project →
  (Keystone.get_domain keystone (Accounts.nu_domain user) []).1 = Ok domain →
  Accounts.users_create writes (Accounts.nu_name user) (Accounts.nu_password user)
    domain project = Ok created →
  (∀ x, x ∈ Accounts.nu_roles user →
        (Keystone.get_role keystone x []).1 = Ok (found x) ∧
        Accounts.roles_grant writes (Keystone.ent_id (found x)) (Keystone.ent_id created)
          (Keystone.ent_id project) = Ok tt) →
  ∃ l', Accounts.create_user keystone writes user l = (Ok created, l') ∧
        Accounts.writes_of l' =
          Accounts.writes_of l ++
          Accounts.Created (Accounts.nu_name user) (Accounts.nu_password user)
            domain project ::
          ((λ x, Accounts.Granted (Keystone.ent_id (found x)) (Keystone.ent_id created)
                   (Keystone.ent_id project)) <$> Accounts.nu_roles user).
Proof.
  intros Hproject Hdomain Hcreate Hroles.
  destruct (create_user_start keystone writes user project domain created l
              Hproject Hdomain Hcreate) as (l3 & Hw3 & ->).
  destruct (grants_run keystone writes found created project (Accounts.nu_roles user)
              l3 [] Hroles) as (l' & Hw' & Hrun).
  rewrite (right_id_L [] (++)) in Hrun.
  exists l'. split.
  - by rewrite (bind_ok _ _ l3 tt l') by exact Hrun.
  - rewrite Hw', Hw3. by rewrite <- (assoc_L (++)).
Qed.

(** "alice" is created in the project "demo" with the roles "admin" and
    "member". *)
Lemma create_user_grants_every_role_witness :
  ∃ l', Accounts.create_user Situations.directory Situations.registrar
          (Situations.alice "demo" ["admin"; "member"]) [] =
          (Ok Situations.alice_created, l') ∧
        Accounts.writes_of l' =
          [Accounts.Created "alice" "secret" Situations.default_domain Situations.demo;
           Accounts.Granted "r3" "u-alice" "p1";
           Accounts.Granted "r4" "u-alice" "p1"].
Proof.
  apply (create_user_grants_every_role Situations.directory Situations.registrar
           (Situations.alice "demo" ["admin"; "member"])
           Situations.demo Situations.default_domain Situations.alice_created
           Situations.role_named []);
    try reflexivity.
  intros x Hx. cbn in Hx. rewrite !elem_of_cons, elem_of_nil in Hx.
  destruct Hx as [->|[->|[]]]; split; reflexivity.
Defined.

Section CreateUserLog.
Import Keystone Accounts.
Variable keystone : Client.
Variable writes : Writes.

(** The loop that grants the roles, with all that it does to the identity
    service: for each role its lookup, then its grant. *)
Lemma grants_log (found : string → Entity) (created project : Entity)
    (granted : list string) (l : list event) (rest : list string) :
  (∀ x, x ∈ granted →
        (get_role keystone x []).1 = Ok (found x) ∧
        roles_grant writes (ent_id (found x)) (ent_id created) (ent_id project) = Ok tt) →
  for_each (granted ++ rest) (λ role,
    role ← asking (get_role keystone role);
    remote record_event
      (Granted (ent_id role) (ent_id created) (ent_id project))
      (roles_grant writes (ent_id role) (ent_id created) (ent_id project))) l =
  for_each rest (λ role,
    role ← asking (get_role keystone role);
    remote record_event
      (Granted (ent_id role) (ent_id created) (ent_id project))
      (roles_grant writes (ent_id role) (ent_id created) (ent_id project)))
    (l ++ concat ((λ x, asked (get_role keystone x) ++
                        [Granted (ent_id (found x)) (ent_id created) (ent_id project)])
                  <$> granted)).
Proof.
  revert l. induction granted as [|x granted IH]; intros l Hall.
  { simpl. by rewrite (right_id_L [] (++)). }
  destruct (Hall x) as [Hrole Hgrant]; [by left|].
  assert ((role ← asking (get_role keystone x);
           remote record_event
             (Granted (ent_id role) (ent_id created) (ent_id project))
             (roles_grant writes (ent_id role) (ent_id created) (ent_id project))) l =
          (Ok tt, (l ++ asked (get_role keystone x)) ++
                  [Granted (ent_id (found x)) (ent_id created) (ent_id project)])) as Hbody.
  { unfold mbind, M_bind. rewrite asking_run, Hrole. simpl.
    unfold remote, record_event. by rewrite Hgrant. }
  simpl. rewrite (bind_ok _ _ _ _ _ Hbody).
  rewrite IH by (intros y Hy; apply Hall; by right).
  by rewrite <- !(assoc_L (++)).
Qed.

Lemma writes_of_grants (found : string → Entity) (created project : Entity)
    (granted : list string) :
  writes_of (concat ((λ x, asked (get_role keystone x) ++
                           [Granted (ent_id (found x)) (ent_id created) (ent_id project)])
                     <$> granted)) =
    (λ x, Granted (ent_id (found x)) (ent_id created) (ent_id project)) <$> granted.
Proof.
  induction granted as [|x granted IH]; [done|].
  rewrite !fmap_cons, concat_cons, !writes_of_app, IH.
  unfold asked. by rewrite writes_of_asked.
Qed.

(** [create_user] up to the loop over the roles, with all that it does to
    the identity service. *)
Lemma create_user_start_log (user : NewUser) (project domain created : Entity)
    (l : list event) :
  (get_project keystone (nu_project user) []).1 = Ok project →
  (get_domain keystone (nu_domain user) []).1 = Ok domain →
  users_create writes (nu_name user) (nu_password user) domain project = Ok created →
  create_user keystone writes user l =
    (for_each (nu_roles user) (λ role,
       role ← asking (get_role keystone role);
       remote record_event
         (Granted (ent_id role) (ent_id created) (ent_id project))
         (roles_grant writes (ent_id role) (ent_id created) (ent_id project)));;
     mret created)
      (l ++ asked (get_project keystone (nu_project user)) ++
            asked (get_domain keystone (nu_domain user)) ++
            [Created (nu_name user) (nu_password user) domain project]).
Proof.
  intros Hproject Hdomain Hcreate. unfold create_user.
  rewrite (bind_ok _ _ l project (l ++ asked (get_project keystone (nu_project user))))
    by (by rewrite asking_run, Hproject).
  rewrite (bind_ok _ _ _ domain
             ((l ++ asked (get_project keystone (nu_project user))) ++
              asked (get_domain keystone (nu_domain user))))
    by (by rewrite asking_run, Hdomain).
  rewrite (bind_ok _ _ _ created
             (((l ++ asked (get_project keystone (nu_project user))) ++
               asked (get_domain keystone (nu_domain user))) ++
              [Created (nu_name user) (nu_password user) domain project])).
  - by rewrite <- !(assoc_L (++)).
  - unfold remote, record_event. by rewrite Hcreate.
Qed.

End CreateUserLog.

(** X19. No rollback. When the lookup of a role fails after the user has
    been created, [create_user] raises that failure and leaves the user
    created and the roles before that one granted. All that it has done to
    the identity service is: the lookups of the project and of the domain,
    the creation, for each role before the failing one its lookup and its
    grant, and the lookup that failed. The roles after the failing one are
    neither looked up nor granted. *)
Theorem create_user_does_not_roll_back (keystone : Keystone.Client)
    (writes : Accounts.Writes) (user : Accounts.NewUser)
    (project domain created : Keystone.Entity) (found : string → Keystone.Entity)
    (granted : list string) (bad : string) (later : list string) (e : exn)
    (l : list Accounts.event) :
  (Keystone.get_project keystone (Accounts.nu_project user) []).1 = Ok project →
  (Keystone.get_domain keystone (Accounts.nu_domain user) []).1 = Ok domain →
  Accounts.users_create writes (Accounts.nu_name user) (Accounts.nu_password user)
    domain project = Ok created →
  Accounts.nu_roles user = granted ++ bad :: later →
  (∀ x, x ∈ granted →
        (Keystone.get_role keystone x []).1 = Ok (found x) ∧
        Accounts.roles_grant writes (Keystone.ent_id (found x)) (Keystone.ent_id created)
          (Keystone.ent_id project) = Ok tt) →
  (Keystone.get_role keystone bad []).1 = Raise e →
  ∃ l', Accounts.create_user keystone writes user l = (Raise e, l') ∧
        l' = l ++
             Accounts.asked (Keystone.get_project keystone (Accounts.nu_project user)) ++
             Accounts.asked (Keystone.get_domain keystone (Accounts.nu_domain user)) ++
             [Accounts.Created (Accounts.nu_name user) (Accounts.nu_password user)
                domain project] ++
             concat ((λ x, Accounts.asked (Keystone.get_role keystone x) ++
                           [Accounts.Granted (Keystone.ent_id (found x))
                              (Keystone.ent_id created) (Keystone.ent_id project)])
                     <$> granted) ++
             Accounts.asked (Keystone.get_role keystone bad) ∧
        Accounts.writes_of l' =
          Accounts.writes_of l ++
          Accounts.Created (Accounts.nu_name user) (Accounts.nu_password user)
            domain project ::
          ((λ x, Accounts.Granted (Keystone.ent_id (found x)) (Keystone.ent_id created)
                   (Keystone.ent_id project)) <$> granted).
Proof.
  intros Hproject Hdomain Hcreate Hsplit Hroles Hbad.
  eexists. split; [|split; [reflexivity|]].
  - rewrite (create_user_start_log keystone writes user project domain created l
               Hproject Hdomain Hcreate), Hsplit.
    apply bind_raise.
    rewrite (grants_log keystone writes found created project granted _ (bad :: later)
               Hroles).
    simpl. apply bind_raise. erewrite bind_raise; [|by rewrite asking_run, Hbad].
    by rewrite <- !(assoc_L (++)).
  - rewrite !writes_of_app, (writes_of_grants keystone found created project granted).
    unfold Accounts.asked. rewrite !writes_of_asked. simpl.
    by rewrite (right_id_L [] (++)).
Qed.

(** Two roles are named "operator": creating "alice" with the roles "admin",
    "operator" and "member" fails on the second, with "alice" created and
    "admin" granted; "member" is not looked up. *)
Lemma create_user_does_not_roll_back_witness :
  ∃ l', Accounts.create_user Situations.directory Situations.registrar
          (Situations.alice "demo" ["admin"; "operator"; "member"]) [] =
          (Raise (Invalid "Role name seems ambiguous: operator"), l') ∧
        l' = [Accounts.Asked (Keystone.CGet Keystone.Project "demo");
              Accounts.Asked (Keystone.CList Keystone.Project "demo");
              Accounts.Asked (Keystone.CGet Keystone.Domain "default");
              Accounts.Asked (Keystone.CList Keystone.Domain "default");
              Accounts.Created "alice" "secret" Situations.default_domain Situations.demo;
              Accounts.Asked (Keystone.CGet Keystone.Role "admin");
              Accounts.Asked (Keystone.CList Keystone.Role "admin");
              Accounts.Granted "r3" "u-alice" "p1";
              Accounts.Asked (Keystone.CGet Keystone.Role "operator");
              Accounts.Asked (Keystone.CList Keystone.Role "operator")] ∧
        Accounts.writes_of l' =
          [Accounts.Created "alice" "secret" Situations.default_domain Situations.demo;
           Accounts.Granted "r3" "u-alice" "p1"].
Proof.
  apply (create_user_does_not_roll_back Situations.directory Situations.registrar
           (Situations.alice "demo" ["admin"; "operator"; "member"])
           Situations.demo Situations.default_domain Situations.alice_created
           Situations.role_named ["admin"] "operator" ["member"]
           (Invalid "Role name seems ambiguous: operator") []);
    try reflexivity.
  intros x Hx. cbn in Hx. rewrite !elem_of_cons, elem_of_nil in Hx.
  destruct Hx as [->|[]]. split; reflexivity.
Defined.

(** X20. Nothing is written before the project and the domain are found:
    when the lookup of the project fails, or that of the domain after it,
    [create_user] raises that failure without a creation or a grant. *)
Theorem create_user_fails_before_writing (keystone : Keystone.Client)
    (writes : Accounts.Writes) (user : Accounts.NewUser) (e : exn)
    (l : list Accounts.event) :
  (Keystone.get_project keystone (Accounts.nu_project user) []).1 = Raise e ∨
  ((∃ project, (Keystone.get_project keystone (Accounts.nu_project user) []).1 = Ok project) ∧
   (Keystone.get_domain keystone (Accounts.nu_domain user) []).1 = Raise e) →
  ∃ l', Accounts.create_user keystone writes user l = (Raise e, l') ∧
        Accounts.writes_of l' = Accounts.writes_of l.
Proof.
  intros [Hproject|[[project Hproject] Hdomain]].
  - exists (Accounts.asking
              (Keystone.get_project keystone (Accounts.nu_project user)) l).2.
    split; [|apply writes_after_asking].
    apply bind_raise. by rewrite asking_run, Hproject.
  - exists (Accounts.asking
              (Keystone.get_domain keystone (Accounts.nu_domain user))
              (Accounts.asking
                 (Keystone.get_project keystone (Accounts.nu_project user)) l).2).2.
    split; [|by rewrite !writes_after_asking].
    unfold Accounts.create_user.
    rewrite (bind_ok _ _ l project
               (Accounts.asking
                  (Keystone.get_project keystone (Accounts.nu_project user)) l).2)
      by (by rewrite asking_run, Hproject).
    apply bind_raise. by rewrite (asking_run (Keystone.get_domain _ _)), Hdomain.
Qed.

(** No project is called "nope": "alice" is not created. *)
Lemma create_user_fails_before_writing_witness :
  ∃ l', Accounts.create_user Situations.directory Situations.registrar
          (Situations.alice "nope" ["admin"]) [] =
          (Raise (Invalid "Project not Found: nope"), l') ∧
        Accounts.writes_of l' = [].
Proof.
  apply (create_user_fails_before_writing Situations.directory Situations.registrar
           (Situations.alice "nope" ["admin"]) (Invalid "Project not Found: nope") []).
  left. reflexivity.
Defined.

(** X21. Deleting a user by a name that is not an id lists the users of that
    name. Exactly one: the service is asked to delete that user, and a
    failure of the deletion is the caller's unless it is [exception.Invalid],
    which is swallowed. None or several: nobody is deleted and
    [delete_user] returns normally all the same. *)
Theorem delete_user_by_name (keystone : Keystone.Client) (user : string)
    (found : list Keystone.Entity) (l : Keystone.log) :
  Keystone.mgr_get (Keystone.users keystone) user = Raise NotFound →
  Keystone.mgr_list (Keystone.users keystone) user = Ok found →
  Keystone.delete_user keystone user l =
    match found with
    | [u] => (match Keystone.users_delete keystone u with
              | Raise (Invalid _) => Ok tt
              | r => r
              end,
              l ++ [Keystone.CGet Keystone.User user; Keystone.CList Keystone.User user;
                    Keystone.CDelete u])
    | _ => (Ok tt, l ++ [Keystone.CGet Keystone.User user;
                         Keystone.CList Keystone.User user])
    end.
Proof.
  intros Hget Hlist.
  pose proof (lookup_by_name keystone Keystone.User user l found Hget Hlist) as H.
  change (Keystone.lookup keystone Keystone.User user l)
    with (Keystone.get_user keystone user l) in H.
  unfold Keystone.delete_user, try_except.
  destruct found as [|u [|u' rest]].
  - by rewrite (bind_raise _ _ _ _ _ H).
  - rewrite (bind_ok _ _ _ _ _ H). unfold remote, Keystone.record_call.
    rewrite <- (assoc_L (++)). simpl.
    destruct (Keystone.users_delete keystone u) as [[]|[]]; reflexivity.
  - by rewrite (bind_raise _ _ _ _ _ H).
Qed.

(** Two users are named "bob": deleting "bob" deletes neither and reports
    nothing. *)
Lemma delete_user_by_name_witness :
  Keystone.delete_user Situations.directory "bob" [] =
    (Ok tt, [Keystone.CGet Keystone.User "bob"; Keystone.CList Keystone.User "bob"]).
Proof.
  apply (delete_user_by_name Situations.directory "bob"
           [Situations.bob1; Situations.bob2] []); reflexivity.
Defined.
